(** * node-cache-builder: the dependency merger (src/merger.ts)

    A shallow embedding of [mergeDependencies] and of the functions it
    calls, with the properties of the merge proved over it; then of the
    configuration (config.ts) and of the scanner (scanner.ts).

    Conventions of the embedding.
    - A JavaScript exception is a value: every function that can reach a
      [throw] returns an [outcome].
    - A [Map] is the list of its entries in insertion order, which is the
      order in which JavaScript iterates it.
    - A plain object used as a dictionary ([Record<string, string>]) is a
      [gmap string string] of its own properties.  The two objects the
      merger creates with [{}] inherit from [Object.prototype]: a read
      [o[name]] that finds no own property finds the inherited member, and
      the write [o['__proto__'] = s] runs the inherited setter, which
      ignores a string and stores nothing.
    - [Object.entries(o)] of an input object is the list of its entries, so
      a repository's two dependency objects are lists of pairs.
    - The [semver] package is not part of the repository.  Its search for
      a version inside a specifier, [semver.coerce], is a parameter of the
      development; its [SemVer] values, their [version] string, the
      constructor that parses such a string and the comparison are
      modelled below. *)

From Stdlib Require Import String Ascii NArith Lia DecimalString DecimalN DecimalPos DecimalFacts.
From stdpp Require Import base decidable proof_irrel option list strings gmap.

Local Open Scope string_scope.
Local Open Scope list_scope.

(** ** Exceptions *)

Inductive outcome (A : Type) : Type :=
| Returned (a : A)
| Thrown (msg : string).
Arguments Returned {A} a.
Arguments Thrown {A} msg.

Definition obind {A B} (m : outcome A) (k : A → outcome B) : outcome B :=
  match m with
  | Returned a => k a
  | Thrown msg => Thrown msg
  end.

Declare Scope outcome_scope.
Delimit Scope outcome_scope with outcome.
Notation "'let!' x := m 'in' k" := (obind m (λ x, k))
  (at level 10, x pattern, m at level 200, k at level 200) : outcome_scope.
Local Open Scope outcome_scope.

(** A [for ... of] loop whose body can throw: the state is threaded
    through the elements in order and the first exception ends the loop. *)
Fixpoint for_of {S A} (body : S → A → outcome S) (l : list A) (s : S) : outcome S :=
  match l with
  | [] => Returned s
  | x :: l' => let! s' := body s x in for_of body l' s'
  end.

(** ** The part of the [semver] package the merger uses *)

Module Semver.

Definition MAX_SAFE_INTEGER : N := 9007199254740991.

Definition safe_components (a b c : N) : bool :=
  (a <=? MAX_SAFE_INTEGER)%N && (b <=? MAX_SAFE_INTEGER)%N
  && (c <=? MAX_SAFE_INTEGER)%N.

(** A [SemVer] object without prerelease and build tags, which is all
    that [coerce] produces in its default mode.  The constructor refuses
    components above [Number.MAX_SAFE_INTEGER]. *)
Record SemVer : Type := mkSemVer {
  major : N;
  minor : N;
  patch : N;
  components_safe : Is_true (safe_components major minor patch)
}.

Definition make (a b c : N) : option SemVer :=
  match decide (Is_true (safe_components a b c)) with
  | left H => Some (mkSemVer a b c H)
  | right _ => None
  end.

Definition number_to_string (n : N) : string :=
  NilZero.string_of_uint (N.to_uint n).

(** [this.version = `${major}.${minor}.${patch}`] *)
Definition version (v : SemVer) : string :=
  number_to_string (major v) +:+ "." +:+ number_to_string (minor v)
  +:+ "." +:+ number_to_string (patch v).

(** A numeric identifier of the strict grammar: ["0"], or digits that do
    not start with a zero. *)
Definition numeric_identifier (s : string) : option N :=
  match NilZero.uint_of_string s with
  | Some d => if Decimal.uint_eq_dec (Decimal.unorm d) d then Some (N.of_uint d) else None
  | None => None
  end.

(** Cuts a string at its first dot. *)
Fixpoint until_dot (s : string) : string * option string :=
  match s with
  | EmptyString => (EmptyString, None)
  | String c s' =>
      if Ascii.eqb c "." then (EmptyString, Some s')
      else let '(a, r) := until_dot s' in (String c a, r)
  end.

(** The strict grammar restricted to MAJOR.MINOR.PATCH; any other string
    is refused, among them the strings with a prerelease or build tag,
    which the merger never builds. *)
Definition parse (s : string) : option SemVer :=
  let '(a, r1) := until_dot s in
  match r1 with
  | None => None
  | Some s1 =>
      let '(b, r2) := until_dot s1 in
      match r2 with
      | None => None
      | Some c =>
          match numeric_identifier a, numeric_identifier b, numeric_identifier c with
          | Some x, Some y, Some z => make x y z
          | _, _, _ => None
          end
      end
  end.

(** [new SemVer(s)] throws a [TypeError] on a string it cannot parse. *)
Definition new_SemVer (s : string) : outcome SemVer :=
  match parse s with
  | Some v => Returned v
  | None => Thrown ("TypeError: Invalid Version: " +:+ s)
  end.

Definition compareIdentifiers (a b : N) : comparison := (a ?= b)%N.

(** [compareMain]: the components in turn, the first that differs decides. *)
Definition compareMain (x y : SemVer) : comparison :=
  match compareIdentifiers (major x) (major y) with
  | Eq =>
      match compareIdentifiers (minor x) (minor y) with
      | Eq => compareIdentifiers (patch x) (patch y)
      | c => c
      end
  | c => c
  end.

(** [semver.compare(a, b)] builds both objects, then compares them. *)
Definition compare (a b : string) : outcome comparison :=
  let! x := new_SemVer a in
  let! y := new_SemVer b in
  Returned (compareMain x y).

Definition is_Gt (c : comparison) : bool :=
  match c with Gt => true | _ => false end.
Definition is_Lt (c : comparison) : bool :=
  match c with Lt => true | _ => false end.

(** [semver.gt(a, b)] is [compare(a, b) > 0]; [semver.lt(a, b)] is
    [compare(a, b) < 0]. *)
Definition gt (a b : string) : outcome bool :=
  let! c := compare a b in Returned (is_Gt c).
Definition lt (a b : string) : outcome bool :=
  let! c := compare a b in Returned (is_Lt c).

(** [x] is not below [y]. *)
Definition geb (x y : SemVer) : bool := negb (is_Lt (compareMain x y)).

End Semver.

(** ** A stand-in for [semver.coerce]

    Modelled from the documentation of the semver package, which is not
    part of the repository: in its default mode [coerce] looks for the
    first run of at most sixteen digits that is not part of a longer run,
    reads up to two further dot-separated runs after it, fills the
    missing ones with zero and hands the three to the parser.  The
    theorems below hold for every function in the place of [coerce]; this
    one serves where a concrete specifier has to be evaluated. *)

Module Coerce.

Definition is_digit (c : ascii) : bool :=
  (48 <=? N_of_ascii c)%N && (N_of_ascii c <=? 57)%N.

(** The longest prefix of digits, and what follows it. *)
Fixpoint digits (s : string) : string * string :=
  match s with
  | EmptyString => (EmptyString, EmptyString)
  | String c s' =>
      if is_digit c then let '(run, rest) := digits s' in (String c run, rest)
      else (EmptyString, s)
  end.

Definition fits (run : string) : bool :=
  (1 <=? String.length run)%nat && (String.length run <=? 16)%nat.

(** The first run of digits that starts the string or follows a character
    that is not a digit, and has at most sixteen digits. *)
Fixpoint search (after_digit : bool) (s : string) : option (string * string) :=
  match s with
  | EmptyString => None
  | String c s' =>
      if is_digit c then
        if after_digit then search true s'
        else
          let '(run, rest) := digits s in
          if fits run then Some (run, rest) else search true s'
      else search false s'
  end.

(** An optional group: a dot and a run of one to sixteen digits. *)
Definition group (s : string) : option (string * string) :=
  match s with
  | String c s' =>
      if Ascii.eqb c "." then
        let '(run, rest) := digits s' in
        if fits run then Some (run, rest) else None
      else None
  | EmptyString => None
  end.

Definition coerce (version : string) : option Semver.SemVer :=
  match search false version with
  | None => None
  | Some (major, rest) =>
      let '(minor, patch) :=
        match group rest with
        | None => ("0", "0")
        | Some (minor, rest') =>
            match group rest' with
            | None => (minor, "0")
            | Some (patch, _) => (minor, patch)
            end
        end in
      Semver.parse (major +:+ "." +:+ minor +:+ "." +:+ patch)
  end.

End Coerce.

(** ** JavaScript containers and truthiness *)

(** The value of a [string | null | undefined] when it is truthy: the
    empty string is falsy like [null] and [undefined]. *)
Definition truthy_value (o : option string) : option string :=
  match o with
  | Some s => if decide (s = EmptyString) then None else Some s
  | None => None
  end.

Definition truthy (o : option string) : bool :=
  match truthy_value o with Some _ => true | None => false end.

Section JsMap.
Context {V : Type}.

(** [m.get(k)] *)
Fixpoint Map_get (m : list (string * V)) (k : string) : option V :=
  match m with
  | [] => None
  | (k', v) :: m' => if decide (k' = k) then Some v else Map_get m' k
  end.

(** [m.set(k, v)]: an existing key keeps its place, a new one goes last. *)
Fixpoint Map_set (m : list (string * V)) (k : string) (v : V) : list (string * V) :=
  match m with
  | [] => [(k, v)]
  | (k', v') :: m' =>
      if decide (k' = k) then (k, v) :: m' else (k', v') :: Map_set m' k v
  end.
End JsMap.

(** ** The data of the merger (types.ts) *)

(** types.ts, lines 107-112 ([RepoData]): one scanned repository.  Each of
    its two name-to-specifier objects is given by its entries in the order
    [Object.entries] yields them.  The merger never reads the field
    [packageJson]; the scanner's model keeps it beside the record, in
    [Scanned]. *)
Record RepoData : Type := {
  path : string;
  dependencies : list (string * string);
  devDependencies : list (string * string)
}.

(** types.ts, lines 117-121 ([OutdatedDep]) *)
Record OutdatedDep : Type := {
  name : string;
  currentVersion : string;
  selectedVersion : string
}.

(** types.ts, lines 126-129 ([OutdatedReport]) *)
Record OutdatedReport : Type := {
  repoPath : string;
  outdatedDeps : list OutdatedDep
}.

(** types.ts, lines 134-138 ([MergeResult]): the two objects are given by
    their own properties. *)
Record MergeResult : Type := {
  mergedDependencies : gmap string string;
  mergedDevDependencies : gmap string string;
  outdatedReports : list OutdatedReport
}.

(** The value type of [depVersions] and [devDepVersions] (merger.ts,
    lines 51-52): the selected specifier and, per repository path, the
    specifier that repository declared. *)
Record Selection : Type := {
  version : string;
  sources : list (string * string)
}.

Section Merger.

(** [semver.coerce], with the default options. *)
Variable coerce : string → option Semver.SemVer.

(** merger.ts, lines 11-15 *)
Definition cleanVersion (spec : string) : option string :=
  match coerce spec with
  | Some cleaned => Some (Semver.version cleaned)
  | None => None
  end.

(** merger.ts, lines 20-44.  The three tests on [!clean1] and [!clean2]
    are the first three cases, in the order of the source. *)
Definition selectHigherVersion (v1 v2 : string) : outcome (string * bool) :=
  match truthy_value (cleanVersion v1), truthy_value (cleanVersion v2) with
  | None, None => Returned (v1, true)
  | None, Some _ => Returned (v2, false)
  | Some _, None => Returned (v1, true)
  | Some clean1, Some clean2 =>
      let! higher := Semver.gt clean1 clean2 in
      if higher : bool then Returned (v1, true)
      else
        let! lower := Semver.gt clean2 clean1 in
        if lower : bool then Returned (v2, false)
        else Returned (v1, true)
  end.

(** merger.ts, lines 95-118.  [existing] is the object stored in the map,
    so the two assignments to it change the map's entry in place. *)
Definition processPackage (versionMap : list (string * Selection))
    (pkg spec repo : string) : outcome (list (string * Selection)) :=
  match Map_get versionMap pkg with
  | None =>
      Returned (Map_set versionMap pkg
                  {| version := spec; sources := Map_set [] repo spec |})
  | Some existing =>
      let sources' := Map_set (sources existing) repo spec in
      let! (selected, isV1Higher) := selectHigherVersion (version existing) spec in
      Returned (Map_set versionMap pkg
                  {| version := if isV1Higher : bool then version existing else selected;
                     sources := sources' |})
  end.

(** merger.ts, lines 55-65: the two maps after all repositories. *)
Definition processRepo (maps : list (string * Selection) * list (string * Selection))
    (repo : RepoData) : outcome (list (string * Selection) * list (string * Selection)) :=
  let! depVersions :=
    for_of (λ m '(pkg, spec), processPackage m pkg spec (path repo))
           (dependencies repo) maps.1 in
  let! devDepVersions :=
    for_of (λ m '(pkg, spec), processPackage m pkg spec (path repo))
           (devDependencies repo) maps.2 in
  Returned (depVersions, devDepVersions).

Definition collectVersions (repoDataList : list RepoData)
    : outcome (list (string * Selection) * list (string * Selection)) :=
  for_of processRepo repoDataList ([], []).

(** merger.ts, lines 136-147 and 153-164: the body shared by the two
    loops over a repository's declarations, [selected] being what each
    loop looked up. *)
Definition checkOutdated (selected : option Selection) (outdated : list OutdatedDep)
    (pkg spec : string) : outcome (list OutdatedDep) :=
  match selected with
  | Some sel =>
      if decide (version sel ≠ spec) then
        match truthy_value (cleanVersion spec), truthy_value (cleanVersion (version sel)) with
        | Some cleanCurrent, Some cleanSelected =>
            let! lower := Semver.lt cleanCurrent cleanSelected in
            if lower : bool then
              Returned (outdated ++ [{| name := pkg; currentVersion := spec;
                                        selectedVersion := version sel |}])
            else Returned outdated
        | _, _ => Returned outdated
        end
      else Returned outdated
  | None => Returned outdated
  end.

(** [devDepVersions.get(name) || depVersions.get(name)]: an entry is an
    object, hence truthy. *)
Definition devSelected (depVersions devDepVersions : list (string * Selection))
    (pkg : string) : option Selection :=
  match Map_get devDepVersions pkg with
  | Some sel => Some sel
  | None => Map_get depVersions pkg
  end.

(** merger.ts, lines 134-148: the loop over [repo.dependencies]. *)
Definition checkDependencies (depVersions : list (string * Selection))
    (repo : RepoData) : outcome (list OutdatedDep) :=
  for_of (λ acc '(pkg, spec), checkOutdated (Map_get depVersions pkg) acc pkg spec)
         (dependencies repo) [].

(** merger.ts, lines 151-165: the loop over [repo.devDependencies], which
    goes on pushing to the same array. *)
Definition checkDevDependencies (depVersions devDepVersions : list (string * Selection))
    (repo : RepoData) (outdated : list OutdatedDep) : outcome (list OutdatedDep) :=
  for_of (λ acc '(pkg, spec),
            checkOutdated (devSelected depVersions devDepVersions pkg) acc pkg spec)
         (devDependencies repo) outdated.

(** merger.ts, lines 130-173: the body of the loop over the repositories. *)
Definition reportRepo (depVersions devDepVersions : list (string * Selection))
    (reports : list OutdatedReport) (repo : RepoData) : outcome (list OutdatedReport) :=
  let! outdated := checkDependencies depVersions repo in
  let! outdated := checkDevDependencies depVersions devDepVersions repo outdated in
  if decide (0 < length outdated) then
    Returned (reports ++ [{| repoPath := path repo; outdatedDeps := outdated |}])
  else Returned reports.

(** merger.ts, lines 123-176 *)
Definition buildOutdatedReports (repoDataList : list RepoData)
    (depVersions devDepVersions : list (string * Selection))
    : outcome (list OutdatedReport) :=
  for_of (reportRepo depVersions devDepVersions) repoDataList [].

(** The names [Object.prototype] defines.  An object created with [{}]
    inherits them: eleven methods and the accessor [__proto__]. *)
Definition Object_prototype : list string :=
  [ "constructor"; "__defineGetter__"; "__defineSetter__"; "hasOwnProperty";
    "__lookupGetter__"; "__lookupSetter__"; "isPrototypeOf";
    "propertyIsEnumerable"; "toString"; "valueOf"; "__proto__";
    "toLocaleString" ].

(** [obj[name] = value], for an object created with [{}] and a string
    [value].  Under the name [__proto__] the assignment calls the setter
    inherited from [Object.prototype], which ignores a value that is
    neither an object nor [null]: no property is stored.  Every other
    inherited member is a writable data property, so the assignment
    creates or updates an own property. *)
Definition set_property (obj : gmap string string) (name value : string)
    : gmap string string :=
  if decide (name = "__proto__") then obj else <[name := value]> obj.

(** Whether [obj[name]] is truthy, for an object created with [{}] whose
    own properties are strings.  An own property is read first, and is
    falsy when it is the empty string; without one the read reaches
    [Object.prototype], whose members are functions, and for [__proto__]
    the prototype object itself: all truthy. *)
Definition property_truthy (obj : gmap string string) (name : string) : bool :=
  match obj !! name with
  | Some value => truthy (Some value)
  | None => bool_decide (name ∈ Object_prototype)
  end.

(** merger.ts, lines 68 and 71-73: [mergedDependencies]. *)
Definition buildMerged (depVersions : list (string * Selection)) : gmap string string :=
  foldl (λ obj '(pkg, data), set_property obj pkg (version data)) ∅ depVersions.

(** merger.ts, lines 69 and 75-80: [mergedDevDependencies]. *)
Definition buildMergedDev (merged : gmap string string)
    (devDepVersions : list (string * Selection)) : gmap string string :=
  foldl (λ obj '(pkg, data),
           if property_truthy merged pkg then obj
           else set_property obj pkg (version data))
        ∅ devDepVersions.

(** merger.ts, lines 49-90 *)
Definition mergeDependencies (repoDataList : list RepoData) : outcome MergeResult :=
  let! (depVersions, devDepVersions) := collectVersions repoDataList in
  let merged := buildMerged depVersions in
  let mergedDev := buildMergedDev merged devDepVersions in
  let! reports := buildOutdatedReports repoDataList depVersions devDepVersions in
  Returned {| mergedDependencies := merged;
              mergedDevDependencies := mergedDev;
              outdatedReports := reports |}.

(** ** The vocabulary of the specification *)

(** The Concrete Version of a specifier: what the comparisons read back
    from the cleaned string; [None] is the unparseable state. *)
Definition Normalize (spec : string) : option Semver.SemVer :=
  match cleanVersion spec with
  | Some clean => Semver.parse clean
  | None => None
  end.

(** SelectHigher folded over the specifiers declared for one name, the
    first one being the initial selection. *)
Definition SelectAll (specs : list string) : outcome (option string) :=
  match specs with
  | [] => Returned None
  | first :: rest =>
      let! sel :=
        for_of (λ cur spec, let! r := selectHigherVersion cur spec in Returned r.1)
               rest first in
      Returned (Some sel)
  end.

(** ** What the functions return

    None of the functions above throws.  Each of the following is the
    value the function of the same role returns, which the lemmas
    [..._returns] establish; the properties of the merge are then read
    off these values. *)

Definition select (v1 v2 : string) : string * bool :=
  match coerce v1, coerce v2 with
  | None, None => (v1, true)
  | None, Some _ => (v2, false)
  | Some _, None => (v1, true)
  | Some x, Some y =>
      match Semver.compareMain x y with
      | Lt => (v2, false)
      | _ => (v1, true)
      end
  end.

Definition process (versionMap : list (string * Selection))
    (pkg spec repo : string) : list (string * Selection) :=
  match Map_get versionMap pkg with
  | None =>
      Map_set versionMap pkg {| version := spec; sources := [(repo, spec)] |}
  | Some existing =>
      Map_set versionMap pkg
        {| version := (select (version existing) spec).1;
           sources := Map_set (sources existing) repo spec |}
  end.

(** The selection for a name after one more declaration of it, and after
    a list of them. *)
Definition pick (current : option string) (spec : string) : string :=
  match current with
  | None => spec
  | Some cur => (select cur spec).1
  end.

Definition chooseFrom (current : option string) (specs : list string) : option string :=
  foldl (λ cur spec, Some (pick cur spec)) current specs.

Definition processAll (repo : string) (decls : list (string * string))
    (versionMap : list (string * Selection)) : list (string * Selection) :=
  foldl (λ m '(pkg, spec), process m pkg spec repo) versionMap decls.

Definition collect (repoDataList : list RepoData)
    : list (string * Selection) * list (string * Selection) :=
  foldl (λ maps repo,
           (processAll (path repo) (dependencies repo) maps.1,
            processAll (path repo) (devDependencies repo) maps.2))
        ([], []) repoDataList.

Definition entryOf (selected : option Selection) (pkg spec : string)
    : option OutdatedDep :=
  match selected with
  | Some sel =>
      if decide (version sel ≠ spec) then
        match coerce spec, coerce (version sel) with
        | Some current, Some chosen =>
            if Semver.is_Lt (Semver.compareMain current chosen) then
              Some {| name := pkg; currentVersion := spec;
                      selectedVersion := version sel |}
            else None
        | _, _ => None
        end
      else None
  | None => None
  end.

Definition outdatedNormal (depVersions : list (string * Selection))
    (repo : RepoData) : list OutdatedDep :=
  omap (λ '(pkg, spec), entryOf (Map_get depVersions pkg) pkg spec)
       (dependencies repo).

Definition outdatedDev (depVersions devDepVersions : list (string * Selection))
    (repo : RepoData) : list OutdatedDep :=
  omap (λ '(pkg, spec), entryOf (devSelected depVersions devDepVersions pkg) pkg spec)
       (devDependencies repo).

Definition outdatedOf (depVersions devDepVersions : list (string * Selection))
    (repo : RepoData) : list OutdatedDep :=
  outdatedNormal depVersions repo ++ outdatedDev depVersions devDepVersions repo.

Definition reportOf (depVersions devDepVersions : list (string * Selection))
    (repo : RepoData) : option OutdatedReport :=
  match outdatedOf depVersions devDepVersions repo with
  | [] => None
  | outdated => Some {| repoPath := path repo; outdatedDeps := outdated |}
  end.

Definition merge (repoDataList : list RepoData) : MergeResult :=
  let depVersions := (collect repoDataList).1 in
  let devDepVersions := (collect repoDataList).2 in
  {| mergedDependencies := buildMerged depVersions;
     mergedDevDependencies := buildMergedDev (buildMerged depVersions) devDepVersions;
     outdatedReports := omap (reportOf depVersions devDepVersions) repoDataList |}.

End Merger.

(** The two Dependency Classes and what a repository declares in each. *)
Inductive DependencyClass : Type := normal | development.

Definition declarations (cls : DependencyClass) (repo : RepoData)
    : list (string * string) :=
  match cls with
  | normal => dependencies repo
  | development => devDependencies repo
  end.

(** The specifiers declared for a package in a list of declarations, and
    in a class over all repositories, in input order. *)
Definition specsFor (pkg : string) (decls : list (string * string)) : list string :=
  omap (λ '(p, spec), if decide (p = pkg) then Some spec else None) decls.

Definition declared (cls : DependencyClass) (pkg : string)
    (repoDataList : list RepoData) : list string :=
  flat_map (λ repo, specsFor pkg (declarations cls repo)) repoDataList.

(** IsLower of the specification together with the guard of the
    outdated step: a selection exists, the declared specifier and the
    selected one are parseable, the declared one is strictly lower and the
    two differ as strings. *)
Definition flagged (coerce : string → option Semver.SemVer)
    (selected : option Selection) (declaredSpec selectedSpec : string) : Prop :=
  ∃ sel, selected = Some sel ∧ version sel = selectedSpec
    ∧ ∃ current chosen,
        Normalize coerce declaredSpec = Some current
        ∧ Normalize coerce selectedSpec = Some chosen
        ∧ Semver.compareMain current chosen = Lt
        ∧ declaredSpec ≠ selectedSpec.

(** The declaration an Outdated entry was produced from. *)
Definition declarationOf (e : OutdatedDep) : string * string :=
  (name e, currentVersion e).

(** IsLower of the specification: both specifiers are parseable and the
    Concrete Version of the first is strictly below that of the second. *)
Definition IsLower (coerce : string → option Semver.SemVer)
    (current selected : string) : Prop :=
  ∃ a b, Normalize coerce current = Some a
    ∧ Normalize coerce selected = Some b
    ∧ Semver.compareMain a b = Lt.

(** The selection a declaration is compared with, in the words of the
    specification and in terms of the declarations alone.  For a normal
    declaration it is SelectHigher folded over the normal declarations of
    the name; for a development declaration it is the fold over the
    development declarations of the name and, when there is none, the
    fold over the normal ones. *)
Definition selectionFor (coerce : string → option Semver.SemVer)
    (cls : DependencyClass) (pkg : string) (repoDataList : list RepoData)
    (selected : string) : Prop :=
  match cls with
  | normal =>
      SelectAll coerce (declared normal pkg repoDataList) = Returned (Some selected)
  | development =>
      SelectAll coerce (declared development pkg repoDataList)
      = Returned (Some selected)
      ∨ (SelectAll coerce (declared development pkg repoDataList) = Returned None
         ∧ SelectAll coerce (declared normal pkg repoDataList)
           = Returned (Some selected))
  end.

(** ** The scenarios of the specification *)

Definition repo (p : string) (deps devDeps : list (string * string)) : RepoData :=
  {| path := p; dependencies := deps; devDependencies := devDeps |}.

(** Scenario 1: three repositories declare lodash. *)
Definition scenario1 : list RepoData :=
  [ repo "A" [("lodash", "^4.17.0")] [];
    repo "B" [("lodash", "^4.17.21")] [];
    repo "C" [("lodash", "^4.16.0")] [] ].

(** Scenario 2: a package that is a development dependency of A and a
    normal dependency of B. *)
Definition scenario2 (pkg pathA pathB specA specB : string) : list RepoData :=
  [ repo pathA [] [(pkg, specA)];
    repo pathB [(pkg, specB)] [] ].

(** One repository that declares a package with the empty specifier as a
    normal dependency and with a range as a development dependency. *)
Definition emptySpecifier : list RepoData :=
  [ repo "A" [("foo", EmptyString)] [("foo", "^1.0.0")] ].

(** A development selection above the normal one: x is a development
    dependency of A and B and a normal dependency of C. *)
Definition devAboveNormal : list RepoData :=
  [ repo "A" [] [("x", "^1.0.0")];
    repo "B" [] [("x", "^2.0.0")];
    repo "C" [("x", "^1.5.0")] [] ].

(** A package.json may declare a dependency under the name [__proto__]:
    [JSON.parse] makes it an own property and [Object.entries] lists it. *)
Definition protoDeclared : list RepoData :=
  [ repo "A" [("__proto__", "1.0.0")] [] ].

Definition protoOutdated : list RepoData :=
  [ repo "A" [("__proto__", "1.0.0")] [];
    repo "B" [("__proto__", "2.0.0")] [] ].

(** The specifier a map of Selection Entries records for a package under
    a repository path: [m.get(pkg)?.sources.get(p)]. *)
Definition recorded (m : list (string * Selection)) (pkg p : string) : option string :=
  Map_get m pkg ≫= λ entry, Map_get (sources entry) p.

(** ** Merge statistics *)

(** A line feed, the separator of [join('\n')]. *)
Definition LF : string := String "010"%char EmptyString.

(** A count inside a template literal. *)
Definition count_to_string (n : nat) : string :=
  Semver.number_to_string (N.of_nat n).

(** The text of the four lines, given the four counts. *)
Definition statsText (depCount devDepCount outdatedRepoCount totalOutdated : nat)
    : string :=
  String.concat LF
    [ "Merged dependencies: " +:+ count_to_string depCount;
      "Merged devDependencies: " +:+ count_to_string devDepCount;
      "Repositories with outdated deps: " +:+ count_to_string outdatedRepoCount;
      "Total outdated dependencies: " +:+ count_to_string totalOutdated ].

(** merger.ts, lines 181-196.  [Object.keys(o).length] is the number of
    own properties. *)
Definition getMergeStats (result : MergeResult) : string :=
  let depCount := size (mergedDependencies result) in
  let devDepCount := size (mergedDevDependencies result) in
  let outdatedRepoCount := length (outdatedReports result) in
  let totalOutdated :=
    foldl (λ sum r, sum + length (outdatedDeps r)) 0 (outdatedReports result) in
  statsText depCount devDepCount outdatedRepoCount totalOutdated.

(** The package names a list of repositories declares in a class, and the
    number of declarations. *)
Definition declaredNames (cls : DependencyClass) (repoDataList : list RepoData)
    : gset string :=
  list_to_set (flat_map (λ r, (declarations cls r).*1) repoDataList).

Definition declarationCount (repoDataList : list RepoData) : nat :=
  foldr (λ r n, length (dependencies r) + length (devDependencies r) + n)
        0 repoDataList.

(** ** The configuration (config.ts)

    One call stands for one run of the tool.  [explorer.search] belongs
    to the cosmiconfig package: what it finds is the state the functions
    read, [None] when no file is found, the file cannot be read or holds
    no configuration; [saveConfig] replaces it, the write of the file
    being taken to succeed.  [existsSync] and [resolve] of Node are
    parameters. *)

(** types.ts, [ReportMode] *)
Inductive ReportMode : Type := console | file.

(** types.ts, [Config] *)
Record Config : Type := {
  repositories : list string;
  defaultOutput : option string;
  reportMode : option ReportMode
}.

(** The configuration a file holds: any field may be missing. *)
Record FoundConfig : Type := {
  foundRepositories : option (list string);
  foundDefaultOutput : option string;
  foundReportMode : option ReportMode
}.

(** config.ts, lines 24-27 *)
Definition defaultConfig : Config :=
  {| repositories := []; defaultOutput := None; reportMode := Some console |}.

(** config.ts, lines 32-45: the fields of the file over the defaults;
    every failure of the search ends in the defaults. *)
Definition loadConfig (found : option FoundConfig) : Config :=
  match found with
  | Some c =>
      {| repositories := default (repositories defaultConfig) (foundRepositories c);
         defaultOutput :=
           match foundDefaultOutput c with
           | Some o => Some o
           | None => defaultOutput defaultConfig
           end;
         reportMode :=
           match foundReportMode c with
           | Some m => Some m
           | None => reportMode defaultConfig
           end |}
  | None => defaultConfig
  end.

(** config.ts, lines 50-54: the file after [saveConfig(config)]. *)
Definition saveConfig (config : Config) : option FoundConfig :=
  Some {| foundRepositories := Some (repositories config);
          foundDefaultOutput := defaultOutput config;
          foundReportMode := reportMode config |}.


Section Configuration.

Variable existsSync : string → bool.
(** [resolve(p)] and [resolve(p, q)] *)
Variable resolve : string → string.
Variable resolve2 : string → string → string.

(** config.ts, lines 59-82.  The result is what the call returns or
    throws, and the file after it. *)
Definition addRepository (repoPath : string) (found : option FoundConfig)
    : outcome Config * option FoundConfig :=
  let absolutePath := resolve repoPath in
  if negb (existsSync absolutePath) then
    (Thrown ("Repository path does not exist: " +:+ absolutePath), found)
  else
    let packageJsonPath := resolve2 absolutePath "package.json" in
    if negb (existsSync packageJsonPath) then
      (Thrown ("No package.json found in: " +:+ absolutePath), found)
    else
      let config := loadConfig found in
      if negb (bool_decide (absolutePath ∈ repositories config)) then
        let config' :=
          {| repositories := repositories config ++ [absolutePath];
             defaultOutput := defaultOutput config;
             reportMode := reportMode config |} in
        (Returned config', saveConfig config')
      else (Returned config, found).



End Configuration.

(** ** The scanner (scanner.ts) *)

Module Package.
(** types.ts, [PackageJson]: every field is optional. *)
Record PackageJson : Type := {
  name : option string;
  version : option string;
  dependencies : option (list (string * string));
  devDependencies : option (list (string * string))
}.
End Package.

(** One element of the scanner's result: [RepoData] with the manifest
    it was read from, which types.ts keeps in the field [packageJson]. *)
Record Scanned : Type := {
  packageJson : Package.PackageJson;
  repoData : RepoData
}.

(** [o || {}] for an optional object. *)
Definition orEmpty (o : option (list (string * string))) : list (string * string) :=
  default [] o.

Section Scanner.

Variable existsSync : string → bool.
Variable resolve : string → string.
Variable resolve2 : string → string → string.
(** [JSON.parse(readFileSync(p, 'utf-8'))], which throws on a file that
    cannot be read or parsed. *)
Variable readPackageJson : string → outcome Package.PackageJson.

(** scanner.ts, lines 14-28: the first loop. *)
Definition missingStep (missingPaths : list string) (repoPath : string) : list string :=
  let absolutePath := resolve repoPath in
  if negb (existsSync absolutePath) then missingPaths ++ [absolutePath]
  else
    let packageJsonPath := resolve2 absolutePath "package.json" in
    if negb (existsSync packageJsonPath) then
      missingPaths ++ [absolutePath +:+ " (missing package.json)"]
    else missingPaths.

(** scanner.ts, lines 32-35: the message of the error. *)
Definition configurationError (missingPaths : list string) : string :=
  "Configuration error - the following repositories are invalid:" +:+ LF
  +:+ String.concat LF ((λ p, "  - " +:+ p) <$> missingPaths).

(** scanner.ts, lines 41-54: the body of the second loop. *)
Definition scanStep (repoDataList : list Scanned) (repoPath : string)
    : outcome (list Scanned) :=
  let absolutePath := resolve repoPath in
  let packageJsonPath := resolve2 absolutePath "package.json" in
  let! manifest := readPackageJson packageJsonPath in
  Returned (repoDataList ++
    [{| packageJson := manifest;
        repoData :=
          {| path := absolutePath;
             dependencies := orEmpty (Package.dependencies manifest);
             devDependencies := orEmpty (Package.devDependencies manifest) |} |}]).

(** The line of the error for a path, [None] for a path that exists and
    holds a package.json. *)
Definition invalidLine (repoPath : string) : option string :=
  if negb (existsSync (resolve repoPath)) then Some (resolve repoPath)
  else if negb (existsSync (resolve2 (resolve repoPath) "package.json")) then
    Some (resolve repoPath +:+ " (missing package.json)")
  else None.

(** scanner.ts, lines 12-57 *)
Definition scanRepositories (repoPaths : list string) : outcome (list Scanned) :=
  let missingPaths := foldl missingStep [] repoPaths in
  if decide (0 < length missingPaths) then Thrown (configurationError missingPaths)
  else for_of scanStep repoPaths [].

End Scanner.

(** ** Facts about the semver model *)

Module SemverFacts.
Import Semver.

(** *** The version string of an object parses back to the object *)

Lemma number_to_string_digits n :
  number_to_string n = NilEmpty.string_of_uint (N.to_uint n).
Proof.
  unfold number_to_string. destruct n as [|p]; [reflexivity|].
  simpl. pose proof (DecimalPos.Unsigned.to_uint_nonnil p) as Hp.
  destruct (Pos.to_uint p); [congruence|reflexivity..].
Qed.

Lemma to_uint_unorm n : Decimal.unorm (N.to_uint n) = N.to_uint n.
Proof.
  rewrite <- (DecimalN.Unsigned.of_to n) at 2.
  symmetry. apply DecimalN.Unsigned.to_of.
Qed.

Lemma to_uint_nonnil n : N.to_uint n ≠ Decimal.Nil.
Proof.
  destruct n as [|p]; [discriminate|].
  apply DecimalPos.Unsigned.to_uint_nonnil.
Qed.

Lemma numeric_identifier_number n :
  numeric_identifier (number_to_string n) = Some n.
Proof.
  unfold numeric_identifier, number_to_string.
  rewrite NilZero.usu by apply to_uint_nonnil.
  rewrite to_uint_unorm.
  destruct (Decimal.uint_eq_dec _ _) as [_|Hne]; [|congruence].
  by rewrite DecimalN.Unsigned.of_to.
Qed.

Lemma until_dot_digits d rest :
  until_dot (NilEmpty.string_of_uint d +:+ "." +:+ rest)
  = (NilEmpty.string_of_uint d, Some rest).
Proof.
  induction d as [|d IH|d IH|d IH|d IH|d IH|d IH|d IH|d IH|d IH|d IH];
    simpl; [reflexivity|by rewrite IH..].
Qed.

Lemma make_components v : make (major v) (minor v) (patch v) = Some v.
Proof.
  unfold make. destruct v as [a b c H]; simpl.
  destruct (decide _) as [H'|Hn]; [|done].
  f_equal. f_equal. apply proof_irrel.
Qed.

Lemma parse_version v : parse (version v) = Some v.
Proof.
  unfold parse, version.
  rewrite (number_to_string_digits (major v)), until_dot_digits.
  rewrite (number_to_string_digits (minor v)), until_dot_digits.
  rewrite <- !number_to_string_digits, !numeric_identifier_number.
  apply make_components.
Qed.

Lemma version_nonempty v : version v ≠ EmptyString.
Proof.
  intros H. pose proof (parse_version v) as Hp. rewrite H in Hp. discriminate.
Qed.

Lemma compare_versions x y :
  compare (version x) (version y) = Returned (compareMain x y).
Proof. unfold compare, new_SemVer. by rewrite !parse_version. Qed.

(** *** [compareMain] is a total order on objects *)

Lemma compareMain_spec x y :
  match compareMain x y with
  | Eq => major x = major y ∧ minor x = minor y ∧ patch x = patch y
  | Lt => (major x < major y
           ∨ major x = major y
             ∧ (minor x < minor y ∨ minor x = minor y ∧ patch x < patch y))%N
  | Gt => (major y < major x
           ∨ major x = major y
             ∧ (minor y < minor x ∨ minor x = minor y ∧ patch y < patch x))%N
  end.
Proof.
  unfold compareMain, compareIdentifiers.
  destruct (N.compare_spec (major x) (major y));
    destruct (N.compare_spec (minor x) (minor y));
    destruct (N.compare_spec (patch x) (patch y)); lia.
Qed.

Lemma SemVer_eq x y :
  major x = major y → minor x = minor y → patch x = patch y → x = y.
Proof.
  destruct x as [a b c H], y as [a' b' c' H']; simpl; intros -> -> ->.
  f_equal. apply proof_irrel.
Qed.

Lemma compareMain_refl x : compareMain x x = Eq.
Proof. pose proof (compareMain_spec x x). destruct (compareMain x x); [done|lia..]. Qed.

Lemma compareMain_Eq x y : compareMain x y = Eq → x = y.
Proof.
  intros H. pose proof (compareMain_spec x y) as Hs. rewrite H in Hs.
  destruct Hs as (? & ? & ?). by apply SemVer_eq.
Qed.

Lemma compareMain_antisym x y : compareMain y x = CompOpp (compareMain x y).
Proof.
  pose proof (compareMain_spec x y) as Hxy.
  pose proof (compareMain_spec y x) as Hyx.
  destruct (compareMain x y), (compareMain y x); simpl; try done; lia.
Qed.


Lemma geb_refl x : geb x x = true.
Proof. unfold geb. by rewrite compareMain_refl. Qed.

Lemma geb_trans x y z : geb x y = true → geb y z = true → geb x z = true.
Proof.
  unfold geb.
  pose proof (compareMain_spec x y). pose proof (compareMain_spec y z).
  pose proof (compareMain_spec x z).
  destruct (compareMain x y), (compareMain y z), (compareMain x z);
    simpl; try done; lia.
Qed.

Lemma gt_versions x y :
  gt (version x) (version y) = Returned (is_Gt (compareMain x y)).
Proof. unfold gt. by rewrite compare_versions. Qed.

Lemma lt_versions x y :
  lt (version x) (version y) = Returned (is_Lt (compareMain x y)).
Proof. unfold lt. by rewrite compare_versions. Qed.


End SemverFacts.


(** ** The functions of the merger never throw *)

Lemma for_of_returns {S A} (body : S → A → outcome S) (f : S → A → S) l s :
  (∀ s x, body s x = Returned (f s x)) →
  for_of body l s = Returned (foldl f s l).
Proof.
  intros Hbody. revert s.
  induction l as [|x l IH]; intros s; simpl; [done|].
  rewrite Hbody. simpl. apply IH.
Qed.

Lemma foldl_push_omap {A B} (f : A → option B) l acc :
  foldl (λ acc x, acc ++ option_list (f x)) acc l = acc ++ omap f l.
Proof.
  revert acc. induction l as [|x l IH]; intros acc; simpl.
  - by rewrite app_nil_r.
  - rewrite IH. destruct (f x); simpl; [|by rewrite app_nil_r].
    by rewrite <- app_assoc.
Qed.

Section Returns.

Variable coerce : string → option Semver.SemVer.

Lemma Normalize_coerce spec : Normalize coerce spec = coerce spec.
Proof.
  unfold Normalize, cleanVersion. destruct (coerce spec) as [v|]; [|done].
  apply SemverFacts.parse_version.
Qed.

Lemma truthy_cleanVersion spec :
  truthy_value (cleanVersion coerce spec) = cleanVersion coerce spec.
Proof.
  unfold cleanVersion. destruct (coerce spec) as [v|]; simpl; [|done].
  destruct (decide _) as [H|_]; [|done].
  by apply SemverFacts.version_nonempty in H.
Qed.

Lemma selectHigherVersion_returns v1 v2 :
  selectHigherVersion coerce v1 v2 = Returned (select coerce v1 v2).
Proof.
  unfold selectHigherVersion, select. rewrite !truthy_cleanVersion.
  unfold cleanVersion.
  destruct (coerce v1) as [x|], (coerce v2) as [y|]; try done.
  rewrite !SemverFacts.gt_versions; simpl.
  rewrite (SemverFacts.compareMain_antisym x y).
  by destruct (Semver.compareMain x y).
Qed.

Lemma select_first v1 v2 :
  (select coerce v1 v2).2 = true → (select coerce v1 v2).1 = v1.
Proof.
  unfold select.
  destruct (coerce v1), (coerce v2); try done.
  by destruct (Semver.compareMain _ _).
Qed.

Lemma processPackage_returns versionMap pkg spec repo :
  processPackage coerce versionMap pkg spec repo
  = Returned (process coerce versionMap pkg spec repo).
Proof.
  unfold processPackage, process.
  destruct (Map_get versionMap pkg) as [existing|]; [|done].
  rewrite selectHigherVersion_returns; simpl.
  pose proof (select_first (version existing) spec) as Hfirst.
  destruct (select coerce (version existing) spec) as [selected [|]]; simpl in *;
    [by rewrite Hfirst|done].
Qed.

Lemma processRepo_returns maps repo :
  processRepo coerce maps repo
  = Returned (processAll coerce (path repo) (dependencies repo) maps.1,
              processAll coerce (path repo) (devDependencies repo) maps.2).
Proof.
  unfold processRepo, processAll.
  rewrite (for_of_returns _ (λ m '(pkg, spec), process coerce m pkg spec (path repo)));
    [|by intros m [pkg spec]; apply processPackage_returns].
  simpl.
  rewrite (for_of_returns _ (λ m '(pkg, spec), process coerce m pkg spec (path repo)));
    [done|by intros m [pkg spec]; apply processPackage_returns].
Qed.

Lemma collectVersions_returns repos :
  collectVersions coerce repos = Returned (collect coerce repos).
Proof.
  unfold collectVersions, collect.
  apply for_of_returns. intros maps repo. apply processRepo_returns.
Qed.

Lemma checkOutdated_returns selected outdated pkg spec :
  checkOutdated coerce selected outdated pkg spec
  = Returned (outdated ++ option_list (entryOf coerce selected pkg spec)).
Proof.
  unfold checkOutdated, entryOf.
  destruct selected as [sel|]; [|by rewrite app_nil_r].
  destruct (decide _) as [Hne|_]; [|by rewrite app_nil_r].
  rewrite !truthy_cleanVersion. unfold cleanVersion.
  destruct (coerce spec) as [c|]; [|by rewrite app_nil_r].
  destruct (coerce (version sel)) as [s|]; [|by rewrite app_nil_r].
  rewrite SemverFacts.lt_versions; simpl.
  destruct (Semver.is_Lt _); simpl; [done|by rewrite app_nil_r].
Qed.

Lemma checkDependencies_returns depVersions repo :
  checkDependencies coerce depVersions repo
  = Returned (outdatedNormal coerce depVersions repo).
Proof.
  unfold checkDependencies, outdatedNormal.
  rewrite (for_of_returns _
    (λ acc d, acc ++ option_list
       ((λ '(pkg, spec), entryOf coerce (Map_get depVersions pkg) pkg spec) d)));
    [|by intros acc [pkg spec]; apply checkOutdated_returns].
  by rewrite foldl_push_omap.
Qed.

Lemma checkDevDependencies_returns depVersions devDepVersions repo outdated :
  checkDevDependencies coerce depVersions devDepVersions repo outdated
  = Returned (outdated ++ outdatedDev coerce depVersions devDepVersions repo).
Proof.
  unfold checkDevDependencies, outdatedDev.
  rewrite (for_of_returns _
    (λ acc d, acc ++ option_list
       ((λ '(pkg, spec),
           entryOf coerce (devSelected depVersions devDepVersions pkg) pkg spec) d)));
    [|by intros acc [pkg spec]; apply checkOutdated_returns].
  by rewrite foldl_push_omap.
Qed.

Lemma reportRepo_returns depVersions devDepVersions reports repo :
  reportRepo coerce depVersions devDepVersions reports repo
  = Returned (reports ++ option_list (reportOf coerce depVersions devDepVersions repo)).
Proof.
  unfold reportRepo, reportOf, outdatedOf.
  rewrite checkDependencies_returns; simpl.
  rewrite checkDevDependencies_returns; simpl.
  destruct (outdatedNormal _ _ _ ++ outdatedDev _ _ _ _) as [|e l]; simpl.
  - by rewrite app_nil_r.
  - done.
Qed.

Lemma buildOutdatedReports_returns repos depVersions devDepVersions :
  buildOutdatedReports coerce repos depVersions devDepVersions
  = Returned (omap (reportOf coerce depVersions devDepVersions) repos).
Proof.
  unfold buildOutdatedReports.
  rewrite (for_of_returns _
    (λ acc repo, acc ++ option_list (reportOf coerce depVersions devDepVersions repo)));
    [|by intros; apply reportRepo_returns].
  by rewrite foldl_push_omap.
Qed.

Lemma mergeDependencies_returns repos :
  mergeDependencies coerce repos = Returned (merge coerce repos).
Proof.
  unfold mergeDependencies, merge.
  rewrite collectVersions_returns; simpl.
  destruct (collect coerce repos) as [depVersions devDepVersions]; simpl.
  by rewrite buildOutdatedReports_returns.
Qed.

End Returns.

(** ** Maps *)

Section MapFacts.
Context {V : Type}.
Implicit Types (m : list (string * V)) (k : string) (v : V).

Lemma Map_get_set m k v k' :
  Map_get (Map_set m k v) k' = if decide (k = k') then Some v else Map_get m k'.
Proof.
  induction m as [|[k0 v0] m IH]; simpl.
  - by destruct (decide (k = k')).
  - destruct (decide (k0 = k)) as [->|Hk0]; simpl.
    + by destruct (decide (k = k')).
    + rewrite IH. destruct (decide (k0 = k')) as [->|]; [|done].
      by destruct (decide (k = k')).
Qed.

Lemma Map_get_None m k : Map_get m k = None ↔ k ∉ m.*1.
Proof.
  induction m as [|[k0 v0] m IH]; simpl.
  - split; [intros _; apply not_elem_of_nil|done].
  - rewrite not_elem_of_cons. destruct (decide (k0 = k)) as [->|Hne].
    + split; [done|]. by intros [? _].
    + rewrite IH. split; [by intros H; split|by intros [_ H]].
Qed.

Lemma Map_set_keys m k v :
  (Map_set m k v).*1 = if decide (k ∈ m.*1) then m.*1 else m.*1 ++ [k].
Proof.
  induction m as [|[k0 v0] m IH].
  - rewrite decide_False by apply not_elem_of_nil. done.
  - cbn [Map_set]. destruct (decide (k0 = k)) as [->|Hne].
    + rewrite decide_True by apply list_elem_of_here. done.
    + rewrite !fmap_cons, IH. cbn [fst].
      destruct (decide (k ∈ m.*1)) as [Hin|Hin].
      * rewrite decide_True by (by apply list_elem_of_further). done.
      * rewrite decide_False; [done|].
        intros [-> | H]%elem_of_cons; done.
Qed.

Lemma Map_set_NoDup m k v : NoDup m.*1 → NoDup (Map_set m k v).*1.
Proof.
  intros Hm. rewrite Map_set_keys. destruct (decide _) as [|Hk]; [done|].
  apply NoDup_app. split; [done|]. split; [|apply NoDup_singleton].
  intros x Hx Hx'. apply list_elem_of_singleton in Hx' as ->. done.
Qed.
End MapFacts.

Lemma set_property_lookup (obj : gmap string string) k v pkg :
  set_property obj k v !! pkg
  = if decide (pkg = "__proto__") then obj !! pkg
    else if decide (k = pkg) then Some v else obj !! pkg.
Proof.
  unfold set_property. destruct (decide (k = "__proto__")) as [->|Hk].
  - destruct (decide (pkg = "__proto__")) as [->|Hp]; [done|].
    by rewrite decide_False by done.
  - destruct (decide (pkg = "__proto__")) as [->|Hp].
    + by apply lookup_insert_ne.
    + destruct (decide (k = pkg)) as [->|Hne];
        [apply lookup_insert_eq|by apply lookup_insert_ne].
Qed.

Lemma buildMerged_fold (m : list (string * Selection)) (obj : gmap string string) pkg :
  NoDup m.*1 →
  foldl (λ obj '(pkg, data), set_property obj pkg (version data)) obj m !! pkg
  = match Map_get m pkg with
    | Some data => if decide (pkg = "__proto__") then obj !! pkg else Some (version data)
    | None => obj !! pkg
    end.
Proof.
  revert obj. induction m as [|[k d] m IH]; intros obj Hm; simpl; [done|].
  rewrite fmap_cons in Hm. apply NoDup_cons in Hm as [Hk Hm]. cbn [fst] in Hk.
  rewrite IH by done. rewrite set_property_lookup.
  destruct (decide (k = pkg)) as [->|Hne].
  - apply Map_get_None in Hk. by rewrite Hk.
  - destruct (Map_get m pkg); by destruct (decide (pkg = "__proto__")).
Qed.

Lemma buildMerged_lookup (m : list (string * Selection)) pkg :
  NoDup m.*1 →
  buildMerged m !! pkg
  = if decide (pkg = "__proto__") then None else version <$> Map_get m pkg.
Proof.
  intros Hm. unfold buildMerged. rewrite buildMerged_fold by done.
  rewrite lookup_empty. by destruct (Map_get m pkg), (decide _).
Qed.

Lemma buildMergedDev_fold (merged : gmap string string)
    (m : list (string * Selection)) (obj : gmap string string) pkg :
  NoDup m.*1 →
  foldl (λ obj '(pkg, data),
           if property_truthy merged pkg then obj
           else set_property obj pkg (version data))
        obj m !! pkg
  = match Map_get m pkg with
    | Some data =>
        if decide (pkg = "__proto__") then obj !! pkg
        else if property_truthy merged pkg then obj !! pkg else Some (version data)
    | None => obj !! pkg
    end.
Proof.
  revert obj. induction m as [|[k d] m IH]; intros obj Hm; simpl; [done|].
  rewrite fmap_cons in Hm. apply NoDup_cons in Hm as [Hk Hm]. cbn [fst] in Hk.
  rewrite IH by done.
  destruct (decide (k = pkg)) as [->|Hne].
  - apply Map_get_None in Hk. rewrite Hk.
    destruct (property_truthy merged pkg);
      [by destruct (decide _)|].
    rewrite set_property_lookup. destruct (decide (pkg = "__proto__")); [done|].
    by rewrite decide_True.
  - assert (Hobj : (if property_truthy merged k then obj
                    else set_property obj k (version d)) !! pkg = obj !! pkg).
    { destruct (property_truthy merged k); [done|].
      rewrite set_property_lookup. destruct (decide (pkg = "__proto__")); [done|].
      by rewrite decide_False. }
    rewrite Hobj. done.
Qed.

Lemma buildMergedDev_lookup (merged : gmap string string)
    (m : list (string * Selection)) pkg :
  NoDup m.*1 →
  buildMergedDev merged m !! pkg
  = if decide (pkg = "__proto__") then None
    else if property_truthy merged pkg then None else version <$> Map_get m pkg.
Proof.
  intros Hm. unfold buildMergedDev. rewrite buildMergedDev_fold by done.
  rewrite lookup_empty.
  destruct (Map_get m pkg), (decide (pkg = "__proto__")); try done;
    by destruct (property_truthy merged pkg).
Qed.

(** ** The selection of a version *)

Section Selection.

Variable coerce : string → option Semver.SemVer.

Lemma process_lookup m pkg spec repo pkg' :
  version <$> Map_get (process coerce m pkg spec repo) pkg'
  = if decide (pkg = pkg') then Some (pick coerce (version <$> Map_get m pkg) spec)
    else version <$> Map_get m pkg'.
Proof.
  unfold process.
  destruct (Map_get m pkg) as [existing|]; rewrite Map_get_set;
    by destruct (decide (pkg = pkg')).
Qed.

Lemma process_NoDup m pkg spec repo :
  NoDup m.*1 → NoDup (process coerce m pkg spec repo).*1.
Proof.
  intros Hm. unfold process.
  destruct (Map_get m pkg); by apply Map_set_NoDup.
Qed.

Lemma processAll_NoDup repo decls m :
  NoDup m.*1 → NoDup (processAll coerce repo decls m).*1.
Proof.
  unfold processAll. revert m.
  induction decls as [|[pkg spec] decls IH]; intros m Hm; simpl; [done|].
  by apply IH, process_NoDup.
Qed.

Lemma processAll_lookup repo decls m pkg :
  version <$> Map_get (processAll coerce repo decls m) pkg
  = chooseFrom coerce (version <$> Map_get m pkg) (specsFor pkg decls).
Proof.
  unfold processAll, chooseFrom, specsFor. revert m.
  induction decls as [|[p spec] decls IH]; intros m; simpl; [done|].
  rewrite IH, process_lookup.
  by destruct (decide (p = pkg)) as [->|Hne].
Qed.

Lemma chooseFrom_app current specs1 specs2 :
  chooseFrom coerce current (specs1 ++ specs2)
  = chooseFrom coerce (chooseFrom coerce current specs1) specs2.
Proof. apply foldl_app. Qed.

Lemma collect_fold_lookup repos m1 m2 pkg :
  let maps :=
    foldl (λ maps repo,
             (processAll coerce (path repo) (dependencies repo) maps.1,
              processAll coerce (path repo) (devDependencies repo) maps.2))
          (m1, m2) repos in
  version <$> Map_get maps.1 pkg
  = chooseFrom coerce (version <$> Map_get m1 pkg) (declared normal pkg repos)
  ∧ version <$> Map_get maps.2 pkg
    = chooseFrom coerce (version <$> Map_get m2 pkg) (declared development pkg repos).
Proof.
  revert m1 m2. induction repos as [|repo repos IH]; intros m1 m2; simpl; [done|].
  destruct (IH (processAll coerce (path repo) (dependencies repo) m1)
               (processAll coerce (path repo) (devDependencies repo) m2))
    as [IH1 IH2].
  simpl in IH1, IH2. rewrite IH1, IH2, !processAll_lookup, !chooseFrom_app.
  done.
Qed.

Lemma collect_lookup_normal repos pkg :
  version <$> Map_get (collect coerce repos).1 pkg
  = chooseFrom coerce None (declared normal pkg repos).
Proof. apply (collect_fold_lookup repos [] [] pkg). Qed.

Lemma collect_lookup_development repos pkg :
  version <$> Map_get (collect coerce repos).2 pkg
  = chooseFrom coerce None (declared development pkg repos).
Proof. apply (collect_fold_lookup repos [] [] pkg). Qed.

Lemma collect_fold_NoDup repos (m1 m2 : list (string * Selection)) :
  NoDup m1.*1 → NoDup m2.*1 →
  let maps :=
    foldl (λ maps repo,
             (processAll coerce (path repo) (dependencies repo) maps.1,
              processAll coerce (path repo) (devDependencies repo) maps.2))
          (m1, m2) repos in
  NoDup maps.1.*1 ∧ NoDup maps.2.*1.
Proof.
  revert m1 m2. induction repos as [|repo repos IH]; intros m1 m2 H1 H2; simpl; [done|].
  apply IH; by apply processAll_NoDup.
Qed.

Lemma collect_NoDup repos :
  NoDup (collect coerce repos).1.*1 ∧ NoDup (collect coerce repos).2.*1.
Proof. apply (collect_fold_NoDup repos [] []); apply NoDup_nil_2. Qed.

Lemma chooseFrom_Some cur specs :
  chooseFrom coerce (Some cur) specs
  = Some (foldl (λ cur spec, (select coerce cur spec).1) cur specs).
Proof.
  unfold chooseFrom. revert cur.
  induction specs as [|spec specs IH]; intros cur; simpl; [done|]. apply IH.
Qed.

Lemma SelectAll_returns specs :
  SelectAll coerce specs = Returned (chooseFrom coerce None specs).
Proof.
  destruct specs as [|first rest]; [done|].
  unfold SelectAll.
  rewrite (for_of_returns _ (λ cur spec, (select coerce cur spec).1));
    [|by intros cur spec; rewrite selectHigherVersion_returns].
  simpl. by rewrite <- chooseFrom_Some.
Qed.

(** The selection is one of the specifiers it was folded over. *)
Lemma select_either v1 v2 :
  (select coerce v1 v2).1 = v1 ∨ (select coerce v1 v2).1 = v2.
Proof.
  unfold select. destruct (coerce v1), (coerce v2); simpl; auto.
  destruct (Semver.compareMain _ _); simpl; auto.
Qed.

Lemma chooseFrom_elem current specs sel :
  chooseFrom coerce current specs = Some sel →
  current = Some sel ∨ sel ∈ specs.
Proof.
  unfold chooseFrom. revert current.
  induction specs as [|spec specs IH]; intros current; simpl; [auto|].
  intros [[= Hsel]|Hin]%IH.
  - destruct current as [cur|]; simpl in Hsel.
    + destruct (select_either cur spec) as [H|H]; rewrite H in Hsel; subst.
      * by left.
      * right. apply list_elem_of_here.
    + subst. right. apply list_elem_of_here.
  - right. by apply list_elem_of_further.
Qed.

Lemma chooseFrom_is_Some current specs :
  is_Some current ∨ specs ≠ [] → is_Some (chooseFrom coerce current specs).
Proof.
  unfold chooseFrom. revert current.
  induction specs as [|spec specs IH]; intros current; simpl.
  - intros [H|H]; done.
  - intros _. apply IH. left. eauto.
Qed.

(** The selection is at least as high as both specifiers, as far as they
    are parseable. *)
Lemma select_highest v1 v2 spec w :
  spec = v1 ∨ spec = v2 → coerce spec = Some w →
  ∃ v, coerce (select coerce v1 v2).1 = Some v ∧ Semver.geb v w = true.
Proof.
  unfold select, Semver.geb.
  destruct (coerce v1) as [x|] eqn:H1, (coerce v2) as [y|] eqn:H2; simpl.
  - pose proof (SemverFacts.compareMain_antisym x y) as Hanti.
    destruct (Semver.compareMain x y) eqn:Hc; simpl;
      intros [-> | ->] Hw; simplify_eq;
      (eexists; split; [eassumption|]);
      rewrite ?SemverFacts.compareMain_refl, ?Hc, ?Hanti; done.
  - intros [-> | ->] Hw; simplify_eq.
    eexists; split; [eassumption|]. by rewrite SemverFacts.compareMain_refl.
  - intros [-> | ->] Hw; simplify_eq.
    eexists; split; [eassumption|]. by rewrite SemverFacts.compareMain_refl.
  - intros [-> | ->] Hw; simplify_eq.
Qed.

Lemma chooseFrom_highest cur specs sel spec w :
  chooseFrom coerce (Some cur) specs = Some sel →
  spec = cur ∨ spec ∈ specs → coerce spec = Some w →
  ∃ v, coerce sel = Some v ∧ Semver.geb v w = true.
Proof.
  unfold chooseFrom. revert cur spec w.
  induction specs as [|s specs IH]; intros cur spec w; simpl.
  - intros [= ->] [-> | Hin] Hw; [|by apply elem_of_nil in Hin].
    exists w. split; [done|apply SemverFacts.geb_refl].
  - intros Hsel Hspec Hw.
    assert (spec = cur ∨ spec = s ∨ spec ∈ specs) as [-> | [-> | Hin]].
    { destruct Hspec as [|[|]%elem_of_cons]; auto. }
    + destruct (select_highest cur s cur w) as (v' & Hv' & Hge); [auto|done|].
      destruct (IH _ _ v' Hsel (or_introl eq_refl) Hv') as (v & Hv & Hge').
      exists v. split; [done|]. by apply (SemverFacts.geb_trans v v' w).
    + destruct (select_highest cur s s w) as (v' & Hv' & Hge); [auto|done|].
      destruct (IH _ _ v' Hsel (or_introl eq_refl) Hv') as (v & Hv & Hge').
      exists v. split; [done|]. by apply (SemverFacts.geb_trans v v' w).
    + by apply (IH _ spec w Hsel); [right|].
Qed.

Lemma chooseFrom_None_highest specs sel spec w :
  chooseFrom coerce None specs = Some sel →
  spec ∈ specs → coerce spec = Some w →
  ∃ v, coerce sel = Some v ∧ Semver.geb v w = true.
Proof.
  destruct specs as [|first rest]; [by intros _ ?%elem_of_nil|].
  intros Hsel Hin Hw. apply (chooseFrom_highest first rest sel spec w); [done| |done].
  by apply elem_of_cons in Hin.
Qed.

End Selection.

(** ** SelectHigher *)

(** C2: [selectHigherVersion] follows the six rules in order: two
    unparseable specifiers select the first, one unparseable specifier
    loses to the other, of two parseable ones the higher Concrete Version
    wins and equal Concrete Versions select the first.  The three cases of
    two parseable specifiers are exhaustive, and a specifier paired with
    itself selects the first argument. *)
Theorem selectHigherVersion_policy (coerce : string → option Semver.SemVer) A B :
  (Normalize coerce A = None → Normalize coerce B = None →
     selectHigherVersion coerce A B = Returned (A, true))
  ∧ (Normalize coerce A = None → is_Some (Normalize coerce B) →
       selectHigherVersion coerce A B = Returned (B, false))
  ∧ (is_Some (Normalize coerce A) → Normalize coerce B = None →
       selectHigherVersion coerce A B = Returned (A, true))
  ∧ (∀ a b, Normalize coerce A = Some a → Normalize coerce B = Some b →
       (Semver.compareMain a b = Gt →
          selectHigherVersion coerce A B = Returned (A, true))
       ∧ (Semver.compareMain b a = Gt →
            selectHigherVersion coerce A B = Returned (B, false))
       ∧ (a = b → selectHigherVersion coerce A B = Returned (A, true))
       ∧ (Semver.compareMain a b = Gt ∨ Semver.compareMain b a = Gt ∨ a = b))
  ∧ selectHigherVersion coerce A A = Returned (A, true).
Proof.
  rewrite !Normalize_coerce, !selectHigherVersion_returns. unfold select.
  split; [by intros -> ->|].
  split; [by intros -> [b ->]|].
  split; [by intros [a ->] ->|].
  split.
  - intros a b -> ->.
    pose proof (SemverFacts.compareMain_antisym a b) as Hanti.
    split; [by intros ->|].
    split; [by intros Hgt; rewrite Hgt in Hanti; destruct (Semver.compareMain a b)|].
    split; [by intros ->; rewrite SemverFacts.compareMain_refl|].
    rewrite Hanti.
    destruct (Semver.compareMain a b) eqn:Hc; auto.
    right. right. by apply SemverFacts.compareMain_Eq.
  - destruct (coerce A) as [a|]; [|done].
    by rewrite SemverFacts.compareMain_refl.
Qed.

Lemma selectHigherVersion_policy_witness :
  selectHigherVersion Coerce.coerce "^4.17.21" "^4.17.0" = Returned ("^4.17.21", true)
  ∧ selectHigherVersion Coerce.coerce "git+https://example.com/x.git" "^2.0.0"
    = Returned ("^2.0.0", false).
Proof.
  split.
  - destruct (selectHigherVersion_policy Coerce.coerce "^4.17.21" "^4.17.0")
      as (_ & _ & _ & H & _).
    destruct (H (Semver.mkSemVer 4 17 21 I) (Semver.mkSemVer 4 17 0 I))
      as (Hgt & _); [vm_compute; reflexivity..|].
    apply Hgt. reflexivity.
  - destruct (selectHigherVersion_policy Coerce.coerce
                "git+https://example.com/x.git" "^2.0.0") as (_ & H & _).
    apply H; [vm_compute; reflexivity|].
    exists (Semver.mkSemVer 2 0 0 I). vm_compute; reflexivity.
Defined.

(** C8: of two parseable specifiers with different Concrete Versions the
    higher one is selected whichever comes first; only the flag tells the
    order of the arguments. *)
Theorem selectHigherVersion_order_independent
    (coerce : string → option Semver.SemVer) A B a b :
  Normalize coerce A = Some a → Normalize coerce B = Some b →
  Semver.compareMain a b = Gt →
  selectHigherVersion coerce A B = Returned (A, true)
  ∧ selectHigherVersion coerce B A = Returned (A, false).
Proof.
  rewrite !Normalize_coerce, !selectHigherVersion_returns. unfold select.
  intros -> -> Hgt. rewrite (SemverFacts.compareMain_antisym a b), Hgt. done.
Qed.

Lemma selectHigherVersion_order_independent_witness :
  selectHigherVersion Coerce.coerce "^4.17.21" "^4.16.0" = Returned ("^4.17.21", true)
  ∧ selectHigherVersion Coerce.coerce "^4.16.0" "^4.17.21" = Returned ("^4.17.21", false).
Proof.
  apply (selectHigherVersion_order_independent Coerce.coerce "^4.17.21" "^4.16.0"
           (Semver.mkSemVer 4 17 21 I) (Semver.mkSemVer 4 16 0 I));
    vm_compute; reflexivity.
Defined.

(** ** The merge *)

(** C7: [mergeDependencies] returns a Merge Result for every list of
    Repository Records, whatever the specifiers are: no call of the
    comparison functions inside it can throw, neither in the selection nor
    in the outdated step, and an empty or malformed specifier is cleaned
    to [null]. *)
Theorem mergeDependencies_total (coerce : string → option Semver.SemVer) repos :
  (∃ result, mergeDependencies coerce repos = Returned result)
  ∧ (∀ v1 v2, ∃ r, selectHigherVersion coerce v1 v2 = Returned r)
  ∧ (∀ selected outdated pkg spec,
       ∃ l, checkOutdated coerce selected outdated pkg spec = Returned l)
  ∧ cleanVersion Coerce.coerce EmptyString = None
  ∧ cleanVersion Coerce.coerce "git+https://example.com/x.git" = None.
Proof.
  split; [|split; [|split]].
  - eexists. apply mergeDependencies_returns.
  - intros v1 v2. eexists. apply selectHigherVersion_returns.
  - intros selected outdated pkg spec. eexists. apply checkOutdated_returns.
  - split; vm_compute; reflexivity.
Qed.

(** ** What the merged mappings hold *)

Lemma specsFor_elem pkg decls spec :
  spec ∈ specsFor pkg decls ↔ (pkg, spec) ∈ decls.
Proof.
  unfold specsFor. rewrite list_elem_of_omap. split.
  - intros ([p s] & Hin & Hspec).
    destruct (decide (p = pkg)) as [->|]; by simplify_eq.
  - intros Hin. exists (pkg, spec). split; [done|].
    by rewrite decide_True.
Qed.

Lemma declared_elem cls pkg repos spec :
  spec ∈ declared cls pkg repos
  ↔ ∃ repo, repo ∈ repos ∧ (pkg, spec) ∈ declarations cls repo.
Proof.
  unfold declared. rewrite list_elem_of_In, in_flat_map.
  split; intros (r & Hr & Hspec); exists r.
  - apply list_elem_of_In in Hr, Hspec. by apply specsFor_elem in Hspec.
  - rewrite <- !list_elem_of_In. by rewrite specsFor_elem.
Qed.

Section Merged.

Variable coerce : string → option Semver.SemVer.

Lemma merge_normal_lookup repos pkg :
  mergedDependencies (merge coerce repos) !! pkg
  = if decide (pkg = "__proto__") then None
    else chooseFrom coerce None (declared normal pkg repos).
Proof.
  unfold merge; simpl.
  rewrite buildMerged_lookup by apply collect_NoDup.
  by rewrite collect_lookup_normal.
Qed.

Lemma merge_development_lookup repos pkg :
  mergedDevDependencies (merge coerce repos) !! pkg
  = if decide (pkg = "__proto__") then None
    else if property_truthy (mergedDependencies (merge coerce repos)) pkg then None
    else chooseFrom coerce None (declared development pkg repos).
Proof.
  unfold merge; simpl.
  rewrite buildMergedDev_lookup by apply collect_NoDup.
  by rewrite collect_lookup_development.
Qed.

(** A value of a merged mapping is the selection of its class. *)
Lemma merge_normal_Some repos pkg spec :
  mergedDependencies (merge coerce repos) !! pkg = Some spec →
  pkg ≠ "__proto__"
  ∧ chooseFrom coerce None (declared normal pkg repos) = Some spec.
Proof.
  rewrite merge_normal_lookup. by case_decide.
Qed.

Lemma merge_development_Some repos pkg spec :
  mergedDevDependencies (merge coerce repos) !! pkg = Some spec →
  pkg ≠ "__proto__"
  ∧ property_truthy (mergedDependencies (merge coerce repos)) pkg = false
  ∧ chooseFrom coerce None (declared development pkg repos) = Some spec.
Proof.
  rewrite merge_development_lookup. case_decide; [done|].
  by destruct (property_truthy _ _).
Qed.

(** A name with a declaration has a selection in its class. *)
Lemma chooseFrom_declared cls pkg repos r spec :
  r ∈ repos → (pkg, spec) ∈ declarations cls r →
  is_Some (chooseFrom coerce None (declared cls pkg repos)).
Proof.
  intros Hr Hspec. apply chooseFrom_is_Some. right.
  assert (spec ∈ declared cls pkg repos) as Hin by (apply declared_elem; eauto).
  intros Hnil. rewrite Hnil in Hin. by apply elem_of_nil in Hin.
Qed.

(** The selection of a class is a specifier declared in that class. *)
Lemma chooseFrom_provenance cls pkg repos sel :
  chooseFrom coerce None (declared cls pkg repos) = Some sel →
  ∃ r, r ∈ repos ∧ (pkg, sel) ∈ declarations cls r.
Proof.
  intros [|Hin]%chooseFrom_elem; [done|]. by apply declared_elem.
Qed.

(** The selection of a class is parseable and highest, as soon as one
    declaration in the class is parseable. *)
Lemma chooseFrom_declared_highest cls pkg repos r spec w :
  r ∈ repos → (pkg, spec) ∈ declarations cls r → coerce spec = Some w →
  ∃ sel v, chooseFrom coerce None (declared cls pkg repos) = Some sel
    ∧ coerce sel = Some v
    ∧ ∀ r' spec' w', r' ∈ repos → (pkg, spec') ∈ declarations cls r' →
        coerce spec' = Some w' → Semver.geb v w' = true.
Proof.
  intros Hr Hspec Hw.
  destruct (chooseFrom_declared cls pkg repos r spec Hr Hspec) as [sel Hsel].
  assert (∀ r' spec' w', r' ∈ repos → (pkg, spec') ∈ declarations cls r' →
            coerce spec' = Some w' →
            ∃ v, coerce sel = Some v ∧ Semver.geb v w' = true) as Hall.
  { intros r' spec' w' Hr' Hspec' Hw'.
    apply (chooseFrom_None_highest coerce _ sel spec' w' Hsel); [|done].
    apply declared_elem. eauto. }
  destruct (Hall r spec w Hr Hspec Hw) as (v & Hv & _).
  exists sel, v. split; [done|]. split; [done|].
  intros r' spec' w' Hr' Hspec' Hw'.
  destruct (Hall r' spec' w' Hr' Hspec' Hw') as (v' & Hv' & Hge).
  by simplify_eq.
Qed.

End Merged.

(** The values [collectVersions] and [mergeDependencies] return. *)
Ltac the_returned_values coerce repos :=
  exists (collect coerce repos).1, (collect coerce repos).2, (merge coerce repos);
  split; [by rewrite collectVersions_returns; destruct (collect coerce repos)|];
  split; [apply mergeDependencies_returns|].

(** C1: the merged normal mapping loses the selection of a package named
    [__proto__].  With [__proto__] declared at 1.0.0, a parseable
    specifier, the normal Selection Entry of the name holds 1.0.0 and the
    merged normal mapping holds nothing under the name.  For every other
    name the property holds: in each Dependency Class, a package with at
    least one parseable declaration has a parseable selection whose
    Concrete Version is not below that of any parseable declaration of
    the package in the class; the selection is the entry of the class's
    map after all repositories have been processed, for the normal class
    it is the value of the merged normal mapping, and the merged
    development mapping holds either nothing or the development
    selection for the name.  In scenario 1 the merged normal mapping
    holds lodash at ^4.17.21. *)
Theorem highest_version_selected :
  (∃ depVersions devDepVersions result,
     collectVersions Coerce.coerce protoDeclared = Returned (depVersions, devDepVersions)
     ∧ mergeDependencies Coerce.coerce protoDeclared = Returned result
     ∧ version <$> Map_get depVersions "__proto__" = Some "1.0.0"
     ∧ Normalize Coerce.coerce "1.0.0" = Some (Semver.mkSemVer 1 0 0 I)
     ∧ mergedDependencies result !! "__proto__" = None)
  ∧ (∀ (coerce : string → option Semver.SemVer) repos,
     ∃ depVersions devDepVersions result,
       collectVersions coerce repos = Returned (depVersions, devDepVersions)
       ∧ mergeDependencies coerce repos = Returned result
       ∧ ∀ cls pkg,
           (∃ r spec, r ∈ repos ∧ (pkg, spec) ∈ declarations cls r
                      ∧ is_Some (Normalize coerce spec)) →
           ∃ sel v,
             version <$> Map_get (match cls with
                                  | normal => depVersions
                                  | development => devDepVersions
                                  end) pkg = Some sel
             ∧ Normalize coerce sel = Some v
             ∧ (∀ r spec w, r ∈ repos → (pkg, spec) ∈ declarations cls r →
                  Normalize coerce spec = Some w → Semver.geb v w = true)
             ∧ (cls = normal → pkg ≠ "__proto__" →
                  mergedDependencies result !! pkg = Some sel)
             ∧ (cls = development →
                  ∀ s, mergedDevDependencies result !! pkg = Some s → s = sel))
  ∧ ∃ result, mergeDependencies Coerce.coerce scenario1 = Returned result
      ∧ mergedDependencies result !! "lodash" = Some "^4.17.21".
Proof.
  split; [|split].
  - eexists _, _, _.
    split; [rewrite collectVersions_returns; reflexivity|].
    split; [apply mergeDependencies_returns|].
    repeat split; vm_compute; reflexivity.
  - intros coerce repos. the_returned_values coerce repos.
    intros cls pkg (r & spec & Hr & Hspec & [w Hw]).
    rewrite Normalize_coerce in Hw.
    destruct (chooseFrom_declared_highest coerce cls pkg repos r spec w Hr Hspec Hw)
      as (sel & v & Hsel & Hv & Hmax).
    exists sel, v. split; [|split; [|split; [|split]]].
    + destruct cls;
        [by rewrite collect_lookup_normal|by rewrite collect_lookup_development].
    + by rewrite Normalize_coerce.
    + intros r' spec' w' Hr' Hspec' Hw'. rewrite Normalize_coerce in Hw'. eauto.
    + intros -> Hpkg. rewrite merge_normal_lookup. by rewrite decide_False.
    + intros -> s [_ [_ Hs]]%merge_development_Some. by simplify_eq.
  - eexists. split; [apply mergeDependencies_returns|].
    vm_compute. reflexivity.
Qed.

Lemma highest_version_selected_witness :
  ∃ sel v,
    mergedDependencies (merge Coerce.coerce scenario1) !! "lodash" = Some sel
    ∧ Normalize Coerce.coerce sel = Some v
    ∧ Semver.geb v (Semver.mkSemVer 4 17 0 I) = true.
Proof.
  destruct highest_version_selected as (_ & Hall & _).
  destruct (Hall Coerce.coerce scenario1)
    as (depVersions & devDepVersions & result & _ & Hresult & H).
  rewrite mergeDependencies_returns in Hresult. injection Hresult as <-.
  destruct (H normal "lodash") as (sel & v & _ & Hv & Hmax & Hmerged & _).
  { exists (repo "A" [("lodash", "^4.17.0")] []), "^4.17.0".
    split; [apply list_elem_of_here|].
    split; [apply list_elem_of_here|].
    exists (Semver.mkSemVer 4 17 0 I). vm_compute. reflexivity. }
  exists sel, v. split; [by apply Hmerged|]. split; [done|].
  apply (Hmax (repo "A" [("lodash", "^4.17.0")] []) "^4.17.0").
  - apply list_elem_of_here.
  - apply list_elem_of_here.
  - vm_compute. reflexivity.
Defined.

(** ** The two merged mappings *)

(** A development selection is left out when the read of its name in the
    merged normal mapping is truthy, so the two mappings can only share a
    name whose normal selection is the empty string. *)
Lemma shared_key_only_empty (coerce : string → option Semver.SemVer) repos pkg :
  is_Some (mergedDependencies (merge coerce repos) !! pkg) →
  is_Some (mergedDevDependencies (merge coerce repos) !! pkg) →
  mergedDependencies (merge coerce repos) !! pkg = Some EmptyString.
Proof.
  intros [s Hs] [s' (_ & Hread & _)%merge_development_Some].
  unfold property_truthy, truthy, truthy_value in Hread. rewrite Hs in *.
  by destruct (decide (s = EmptyString)) as [->|].
Qed.

(** C3: the test [!mergedDependencies[name]] reads an empty specifier as
    an absent one.  A repository that declares foo with the empty
    specifier as a normal dependency and with ^1.0.0 as a development
    dependency gets foo in both merged mappings. *)
Theorem empty_specifier_shares_key (coerce : string → option Semver.SemVer) :
  ∃ result,
    mergeDependencies coerce emptySpecifier = Returned result
    ∧ mergedDependencies result !! "foo" = Some EmptyString
    ∧ mergedDevDependencies result !! "foo" = Some "^1.0.0".
Proof.
  eexists. split; [apply mergeDependencies_returns|].
  split; vm_compute; reflexivity.
Qed.

(** C5: scenario 2 evaluated.  A declares left-pad as a development
    dependency at ^1.0.0 and B declares it as a normal dependency at
    ^1.1.0, which is strictly higher.  The merged normal mapping holds
    left-pad at ^1.1.0 and the merged development mapping is empty, as
    expected, but there is no Outdated Report for A: the lookup
    [devDepVersions.get(name) || depVersions.get(name)] finds the
    development Selection Entry, whose version is A's own ^1.0.0, and
    never reaches the normal one. *)
Theorem scenario2_not_reported :
  ∃ depVersions devDepVersions,
    collectVersions Coerce.coerce (scenario2 "left-pad" "A" "B" "^1.0.0" "^1.1.0")
    = Returned (depVersions, devDepVersions)
    ∧ version <$> Map_get depVersions "left-pad" = Some "^1.1.0"
    ∧ IsLower Coerce.coerce "^1.0.0" "^1.1.0"
    ∧ version <$> devSelected depVersions devDepVersions "left-pad" = Some "^1.0.0"
    ∧ mergeDependencies Coerce.coerce (scenario2 "left-pad" "A" "B" "^1.0.0" "^1.1.0")
      = Returned {| mergedDependencies := {[ "left-pad" := "^1.1.0" ]};
                    mergedDevDependencies := ∅;
                    outdatedReports := [] |}.
Proof.
  eexists _, _.
  split; [rewrite collectVersions_returns; reflexivity|].
  split; [vm_compute; reflexivity|].
  split.
  { exists (Semver.mkSemVer 1 0 0 I), (Semver.mkSemVer 1 1 0 I).
    repeat split; vm_compute; reflexivity. }
  split; [vm_compute; reflexivity|].
  rewrite mergeDependencies_returns. vm_compute. reflexivity.
Qed.

(** ** Outdated entries *)

Section Outdated.

Variable coerce : string → option Semver.SemVer.

Lemma entryOf_Some selected pkg spec e :
  entryOf coerce selected pkg spec = Some e
  ↔ declarationOf e = (pkg, spec)
    ∧ flagged coerce selected spec (selectedVersion e).
Proof.
  unfold entryOf, flagged, declarationOf. split.
  - destruct selected as [sel|]; [|done].
    case_decide as Hne; [|done].
    destruct (coerce spec) as [current|] eqn:Hcurrent; [|done].
    destruct (coerce (version sel)) as [chosen|] eqn:Hchosen; [|done].
    destruct (Semver.compareMain current chosen) eqn:Hlt; try done.
    intros [= <-]; simpl. split; [done|].
    exists sel. split; [done|]. split; [done|].
    exists current, chosen. rewrite !Normalize_coerce. by repeat split.
  - intros (Hdecl & sel & -> & Hsel & current & chosen & Hcurrent & Hchosen & Hlt & Hne).
    rewrite Normalize_coerce in Hcurrent, Hchosen.
    destruct e as [n c s]; simpl in *. simplify_eq.
    rewrite decide_True by done. by rewrite Hcurrent, Hchosen, Hlt.
Qed.

Lemma outdatedNormal_elem depVersions r e :
  e ∈ outdatedNormal coerce depVersions r
  ↔ declarationOf e ∈ dependencies r
    ∧ flagged coerce (Map_get depVersions (name e)) (currentVersion e)
        (selectedVersion e).
Proof.
  unfold outdatedNormal. rewrite list_elem_of_omap. split.
  - intros ([pkg spec] & Hin & [Hdecl Hflag]%entryOf_Some).
    rewrite Hdecl. unfold declarationOf in Hdecl. by simplify_eq.
  - intros [Hin Hflag]. exists (declarationOf e). split; [done|].
    by apply entryOf_Some.
Qed.

Lemma outdatedDev_elem depVersions devDepVersions r e :
  e ∈ outdatedDev coerce depVersions devDepVersions r
  ↔ declarationOf e ∈ devDependencies r
    ∧ flagged coerce (devSelected depVersions devDepVersions (name e))
        (currentVersion e) (selectedVersion e).
Proof.
  unfold outdatedDev. rewrite list_elem_of_omap. split.
  - intros ([pkg spec] & Hin & [Hdecl Hflag]%entryOf_Some).
    rewrite Hdecl. unfold declarationOf in Hdecl. by simplify_eq.
  - intros [Hin Hflag]. exists (declarationOf e). split; [done|].
    by apply entryOf_Some.
Qed.

(** The entries of a loop are in the order of the declarations. *)
Lemma entries_sublist (lookup : string → option Selection) decls :
  declarationOf <$> omap (λ '(pkg, spec), entryOf coerce (lookup pkg) pkg spec) decls
  `sublist_of` decls.
Proof.
  induction decls as [|[pkg spec] decls IH]; simpl; [constructor|].
  destruct (entryOf coerce (lookup pkg) pkg spec) as [e|] eqn:He; simpl.
  - apply entryOf_Some in He as [-> _]. by constructor.
  - by constructor.
Qed.

Lemma reports_grouped depVersions devDepVersions (repos : list RepoData) :
  omap (reportOf coerce depVersions devDepVersions) repos
  = (λ r, {| repoPath := path r;
             outdatedDeps := outdatedOf coerce depVersions devDepVersions r |})
    <$> filter (λ r, 0 < length (outdatedOf coerce depVersions devDepVersions r)) repos.
Proof.
  induction repos as [|r repos IH]; [done|].
  rewrite filter_cons. cbn [omap list_omap]. rewrite IH. unfold reportOf.
  destruct (outdatedOf coerce depVersions devDepVersions r) as [|e l] eqn:Hr.
  - rewrite decide_False by (simpl; lia). reflexivity.
  - rewrite decide_True by (simpl; lia). by rewrite fmap_cons, Hr.
Qed.

Lemma report_elem depVersions devDepVersions (repos : list RepoData) report :
  report ∈ omap (reportOf coerce depVersions devDepVersions) repos →
  ∃ r, r ∈ repos ∧ path r = repoPath report
    ∧ outdatedDeps report = outdatedOf coerce depVersions devDepVersions r
    ∧ outdatedDeps report ≠ [].
Proof.
  intros (r & Hr & Hreport)%list_elem_of_omap. exists r. split; [done|].
  unfold reportOf in Hreport.
  destruct (outdatedOf coerce depVersions devDepVersions r) as [|e l];
    [done|]. by injection Hreport as <-.
Qed.

(** A development declaration of a processed repository is always
    compared with the development selection. *)
Lemma devSelected_declared repos r pkg spec :
  r ∈ repos → (pkg, spec) ∈ devDependencies r →
  devSelected (collect coerce repos).1 (collect coerce repos).2 pkg
  = Map_get (collect coerce repos).2 pkg
  ∧ is_Some (Map_get (collect coerce repos).2 pkg).
Proof.
  intros Hr Hspec.
  pose proof (chooseFrom_declared coerce development pkg repos r spec Hr Hspec) as Hsome.
  rewrite <- collect_lookup_development in Hsome.
  unfold devSelected.
  destruct (Map_get (collect coerce repos).2 pkg) as [sel|]; [eauto|].
  by destruct Hsome.
Qed.

Lemma outdatedNormal_selected repos r e :
  e ∈ outdatedNormal coerce (collect coerce repos).1 r →
  chooseFrom coerce None (declared normal (name e) repos) = Some (selectedVersion e).
Proof.
  intros [_ (sel & Hsel & Hversion & _)]%outdatedNormal_elem.
  by rewrite <- collect_lookup_normal, Hsel, <- Hversion.
Qed.

Lemma outdatedDev_selected repos r e :
  r ∈ repos →
  e ∈ outdatedDev coerce (collect coerce repos).1 (collect coerce repos).2 r →
  chooseFrom coerce None (declared development (name e) repos)
  = Some (selectedVersion e).
Proof.
  intros Hr [Hdecl (sel & Hsel & Hversion & _)]%outdatedDev_elem.
  destruct (devSelected_declared repos r (name e) (currentVersion e) Hr Hdecl)
    as [Hdev _].
  by rewrite <- collect_lookup_development, <- Hdev, Hsel, <- Hversion.
Qed.

(** The guard of the outdated step, read on the selected specifier. *)
Lemma flagged_selection selected declaredSpec selectedSpec :
  flagged coerce selected declaredSpec selectedSpec
  ↔ version <$> selected = Some selectedSpec
    ∧ IsLower coerce declaredSpec selectedSpec
    ∧ declaredSpec ≠ selectedSpec.
Proof.
  unfold flagged, IsLower. split.
  - intros (sel & -> & <- & a & b & Ha & Hb & Hlt & Hne). simpl.
    split; [done|]. split; [by exists a, b|done].
  - intros (Hsel & (a & b & Ha & Hb & Hlt) & Hne).
    destruct selected as [sel|]; [|done]. injection Hsel as Hsel.
    exists sel. split; [done|]. split; [done|]. by exists a, b.
Qed.

(** The entries of the two version maps are the selections the
    specification describes. *)
Lemma selectionFor_normal repos pkg sel :
  selectionFor coerce normal pkg repos sel
  ↔ version <$> Map_get (collect coerce repos).1 pkg = Some sel.
Proof.
  unfold selectionFor. rewrite SelectAll_returns, collect_lookup_normal.
  split; [by intros [= ->]|by intros ->].
Qed.

Lemma selectionFor_development repos pkg sel :
  selectionFor coerce development pkg repos sel
  ↔ version <$> devSelected (collect coerce repos).1 (collect coerce repos).2 pkg
    = Some sel.
Proof.
  unfold selectionFor, devSelected. rewrite !SelectAll_returns.
  rewrite <- collect_lookup_normal, <- collect_lookup_development.
  destruct (Map_get (collect coerce repos).2 pkg) as [d|]; simpl.
  - split; [by intros [[= ->]|[[=] _]]|intros [= ->]; by left].
  - split; [by intros [[=]|[_ [= ->]]]|intros ->; by right].
Qed.

End Outdated.

(** C4: for every repository, the two loops of the outdated step emit an
    entry for a declaration exactly when a selection exists for the name,
    the declared and the selected specifier are parseable, the declared
    one is strictly lower and the two differ as strings.  The selection
    is stated on the declarations of the input: for a normal declaration,
    SelectHigher folded over the normal declarations of the name; for a
    development declaration, the fold over the development declarations
    of the name, and only when there is none the fold over the normal
    ones.  So a declaration whose specifier is unparseable or equal to
    the selected one has no entry.  The entries of a repository of the
    input with at least one entry are the entries of its Outdated
    Report. *)
Theorem outdated_entry_iff (coerce : string → option Semver.SemVer) repos :
  ∃ depVersions devDepVersions result,
    collectVersions coerce repos = Returned (depVersions, devDepVersions)
    ∧ mergeDependencies coerce repos = Returned result
    ∧ ∀ r, ∃ l1 l2,
        checkDependencies coerce depVersions r = Returned l1
        ∧ checkDevDependencies coerce depVersions devDepVersions r l1
          = Returned (l1 ++ l2)
        ∧ (∀ e, e ∈ l1
                ↔ declarationOf e ∈ dependencies r
                  ∧ selectionFor coerce normal (name e) repos (selectedVersion e)
                  ∧ IsLower coerce (currentVersion e) (selectedVersion e)
                  ∧ currentVersion e ≠ selectedVersion e)
        ∧ (∀ e, e ∈ l2
                ↔ declarationOf e ∈ devDependencies r
                  ∧ selectionFor coerce development (name e) repos (selectedVersion e)
                  ∧ IsLower coerce (currentVersion e) (selectedVersion e)
                  ∧ currentVersion e ≠ selectedVersion e)
        ∧ (∀ e, e ∈ l1 ++ l2 →
             is_Some (Normalize coerce (currentVersion e))
             ∧ currentVersion e ≠ selectedVersion e)
        ∧ (r ∈ repos → l1 ++ l2 ≠ [] →
           {| repoPath := path r; outdatedDeps := l1 ++ l2 |}
           ∈ outdatedReports result).
Proof.
  the_returned_values coerce repos.
  intros r.
  exists (outdatedNormal coerce (collect coerce repos).1 r),
         (outdatedDev coerce (collect coerce repos).1 (collect coerce repos).2 r).
  split; [apply checkDependencies_returns|].
  split; [apply checkDevDependencies_returns|].
  split; [|split; [|split]].
  - intros e. by rewrite outdatedNormal_elem, flagged_selection, selectionFor_normal.
  - intros e.
    by rewrite outdatedDev_elem, flagged_selection, selectionFor_development.
  - intros e [He|He]%elem_of_app.
    + apply outdatedNormal_elem in He as [_ (_ & (a & b & Ha & _) & Hne)%flagged_selection].
      eauto.
    + apply outdatedDev_elem in He as [_ (_ & (a & b & Ha & _) & Hne)%flagged_selection].
      eauto.
  - intros Hr Hne. unfold merge; simpl.
    apply list_elem_of_omap. exists r. split; [done|].
    unfold reportOf, outdatedOf.
    by destruct (outdatedNormal _ _ _ ++ outdatedDev _ _ _ _).
Qed.

Lemma outdated_entry_iff_witness :
  (∃ l1, checkDependencies Coerce.coerce (collect Coerce.coerce scenario1).1
           (repo "A" [("lodash", "^4.17.0")] []) = Returned l1
     ∧ {| name := "lodash"; currentVersion := "^4.17.0";
          selectedVersion := "^4.17.21" |} ∈ l1)
  ∧ (∃ l2, checkDevDependencies Coerce.coerce (collect Coerce.coerce devAboveNormal).1
             (collect Coerce.coerce devAboveNormal).2
             (repo "A" [] [("x", "^1.0.0")]) [] = Returned ([] ++ l2)
       ∧ {| name := "x"; currentVersion := "^1.0.0";
            selectedVersion := "^2.0.0" |} ∈ l2)
  ∧ (∃ l2, checkDevDependencies Coerce.coerce (collect Coerce.coerce scenario1).1
             (collect Coerce.coerce scenario1).2
             (repo "D" [] [("lodash", "^4.0.0")]) [] = Returned ([] ++ l2)
       ∧ {| name := "lodash"; currentVersion := "^4.0.0";
            selectedVersion := "^4.17.21" |} ∈ l2).
Proof.
  split; [|split].
  - destruct (outdated_entry_iff Coerce.coerce scenario1)
      as (depVersions & devDepVersions & result & Hcollect & _ & H).
    rewrite collectVersions_returns in Hcollect. injection Hcollect as <- <-.
    destruct (H (repo "A" [("lodash", "^4.17.0")] []))
      as (l1 & l2 & Hl1 & _ & Hnormal & _).
    exists l1. split; [exact Hl1|]. apply Hnormal.
    split; [apply list_elem_of_here|].
    split; [vm_compute; reflexivity|].
    split; [|discriminate].
    exists (Semver.mkSemVer 4 17 0 I), (Semver.mkSemVer 4 17 21 I).
    repeat split; vm_compute; reflexivity.
  - destruct (outdated_entry_iff Coerce.coerce devAboveNormal)
      as (depVersions & devDepVersions & result & Hcollect & _ & H).
    rewrite collectVersions_returns in Hcollect. injection Hcollect as <- <-.
    destruct (H (repo "A" [] [("x", "^1.0.0")]))
      as (l1 & l2 & Hl1 & Hl2 & _ & Hdev & _).
    rewrite checkDependencies_returns in Hl1. injection Hl1 as <-.
    exists l2. split; [exact Hl2|]. apply Hdev.
    split; [apply list_elem_of_here|].
    split; [left; vm_compute; reflexivity|].
    split; [|discriminate].
    exists (Semver.mkSemVer 1 0 0 I), (Semver.mkSemVer 2 0 0 I).
    repeat split; vm_compute; reflexivity.
  - destruct (outdated_entry_iff Coerce.coerce scenario1)
      as (depVersions & devDepVersions & result & Hcollect & _ & H).
    rewrite collectVersions_returns in Hcollect. injection Hcollect as <- <-.
    destruct (H (repo "D" [] [("lodash", "^4.0.0")]))
      as (l1 & l2 & Hl1 & Hl2 & _ & Hdev & _).
    rewrite checkDependencies_returns in Hl1. injection Hl1 as <-.
    exists l2. split; [exact Hl2|]. apply Hdev.
    split; [apply list_elem_of_here|].
    split; [right; split; vm_compute; reflexivity|].
    split; [|discriminate].
    exists (Semver.mkSemVer 4 0 0 I), (Semver.mkSemVer 4 17 21 I).
    repeat split; vm_compute; reflexivity.
Defined.

(** C6: the Outdated Reports are the repositories of the input that have
    at least one outdated entry, in input order, each with the entries its
    two loops produced; a repository without entries has no report, and
    within a report the entries of each class follow the order of the
    repository's declarations. *)
Theorem outdated_reports_grouping (coerce : string → option Semver.SemVer) repos :
  ∃ depVersions devDepVersions result (entries : RepoData → list OutdatedDep),
    collectVersions coerce repos = Returned (depVersions, devDepVersions)
    ∧ mergeDependencies coerce repos = Returned result
    ∧ (∀ r, ∃ l1 l2,
         checkDependencies coerce depVersions r = Returned l1
         ∧ checkDevDependencies coerce depVersions devDepVersions r l1
           = Returned (entries r)
         ∧ entries r = l1 ++ l2
         ∧ declarationOf <$> l1 `sublist_of` dependencies r
         ∧ declarationOf <$> l2 `sublist_of` devDependencies r)
    ∧ outdatedReports result
      = (λ r, {| repoPath := path r; outdatedDeps := entries r |})
        <$> filter (λ r, 0 < length (entries r)) repos
    ∧ ∀ report, report ∈ outdatedReports result → outdatedDeps report ≠ [].
Proof.
  exists (collect coerce repos).1, (collect coerce repos).2, (merge coerce repos),
    (outdatedOf coerce (collect coerce repos).1 (collect coerce repos).2).
  split; [by rewrite collectVersions_returns; destruct (collect coerce repos)|].
  split; [apply mergeDependencies_returns|].
  split; [|split].
  - intros r.
    exists (outdatedNormal coerce (collect coerce repos).1 r),
           (outdatedDev coerce (collect coerce repos).1 (collect coerce repos).2 r).
    split; [apply checkDependencies_returns|].
    split; [apply checkDevDependencies_returns|].
    split; [done|].
    split; apply entries_sublist.
  - apply reports_grouped.
  - intros report Hreport.
    by destruct (report_elem coerce _ _ repos report Hreport) as (_ & _ & _ & _ & ?).
Qed.

Lemma outdated_reports_grouping_witness :
  repoPath <$> outdatedReports (merge Coerce.coerce scenario1) = ["A"; "C"].
Proof.
  destruct (outdated_reports_grouping Coerce.coerce scenario1)
    as (depVersions & devDepVersions & result & entries
        & Hcollect & Hresult & Hentries & Hreports & _).
  rewrite mergeDependencies_returns in Hresult. injection Hresult as <-.
  rewrite collectVersions_returns in Hcollect. injection Hcollect as <- <-.
  assert (∀ r, entries r
               = outdatedOf Coerce.coerce (collect Coerce.coerce scenario1).1
                   (collect Coerce.coerce scenario1).2 r) as Hvalue.
  { intros r. destruct (Hentries r) as (l1 & l2 & H1 & H2 & _).
    rewrite checkDependencies_returns in H1. injection H1 as <-.
    rewrite checkDevDependencies_returns in H2. by injection H2 as <-. }
  rewrite Hreports. unfold scenario1.
  rewrite !filter_cons, filter_nil, !Hvalue.
  vm_compute. reflexivity.
Defined.

(** C9: every specifier of the output is a specifier of the input.  A
    value of a merged mapping is declared for its name, in the class of
    the mapping, by some repository; the selected version of an Outdated
    entry is declared for the entry's name by some repository, in the
    class of the declaration the entry was produced from. *)
Theorem output_specifiers_declared (coerce : string → option Semver.SemVer) repos :
  ∃ result,
    mergeDependencies coerce repos = Returned result
    ∧ (∀ pkg spec, mergedDependencies result !! pkg = Some spec →
         ∃ r, r ∈ repos ∧ (pkg, spec) ∈ dependencies r)
    ∧ (∀ pkg spec, mergedDevDependencies result !! pkg = Some spec →
         ∃ r, r ∈ repos ∧ (pkg, spec) ∈ devDependencies r)
    ∧ (∀ report e, report ∈ outdatedReports result → e ∈ outdatedDeps report →
         ∃ cls r0 r,
           r0 ∈ repos ∧ path r0 = repoPath report
           ∧ declarationOf e ∈ declarations cls r0
           ∧ r ∈ repos ∧ (name e, selectedVersion e) ∈ declarations cls r).
Proof.
  exists (merge coerce repos). split; [apply mergeDependencies_returns|].
  split; [|split].
  - intros pkg spec [_ Hsel]%merge_normal_Some.
    by apply (chooseFrom_provenance coerce normal).
  - intros pkg spec (_ & _ & Hsel)%merge_development_Some.
    by apply (chooseFrom_provenance coerce development).
  - intros report e Hreport He.
    destruct (report_elem coerce _ _ repos report Hreport)
      as (r0 & Hr0 & Hpath & Hdeps & _).
    rewrite Hdeps in He. unfold outdatedOf in He.
    apply elem_of_app in He as [He|He].
    + pose proof (outdatedNormal_selected coerce repos r0 e He) as Hsel.
      apply chooseFrom_provenance in Hsel as (r & Hr & Hdecl).
      apply outdatedNormal_elem in He as [He _].
      by exists normal, r0, r.
    + pose proof (outdatedDev_selected coerce repos r0 e Hr0 He) as Hsel.
      apply chooseFrom_provenance in Hsel as (r & Hr & Hdecl).
      apply outdatedDev_elem in He as [He _].
      by exists development, r0, r.
Qed.

Lemma output_specifiers_declared_witness :
  ∃ r, r ∈ scenario1 ∧ ("lodash", "^4.17.21") ∈ dependencies r.
Proof.
  destruct (output_specifiers_declared Coerce.coerce scenario1)
    as (result & Hresult & Hnormal & _).
  rewrite mergeDependencies_returns in Hresult. injection Hresult as <-.
  apply Hnormal. vm_compute. reflexivity.
Defined.

(** C10: an Outdated entry for a normal declaration of [__proto__] carries
    a selected version that the merged normal mapping does not hold.
    With [__proto__] declared at 1.0.0 by A and at 2.0.0 by B, A's report
    has the entry 1.0.0 -> 2.0.0 and the merged normal mapping has nothing
    under the name.  For every other name the property holds: in every
    Outdated Report, the entries produced from normal declarations carry
    the value of the merged normal mapping for their name, and the
    entries produced from development declarations carry the development
    selection, which is SelectHigher folded over the development
    declarations of the name.  That selection can be absent from both
    merged mappings: with x a development dependency of A at ^1.0.0 and
    of B at ^2.0.0 and a normal dependency of C at ^1.5.0, A's entry for
    x carries ^2.0.0, the merged normal mapping holds ^1.5.0 and the
    merged development mapping has no x. *)
Theorem outdated_selected_version :
  (∃ result,
     mergeDependencies Coerce.coerce protoOutdated = Returned result
     ∧ outdatedReports result
       = [ {| repoPath := "A";
              outdatedDeps := [ {| name := "__proto__"; currentVersion := "1.0.0";
                                   selectedVersion := "2.0.0" |} ] |} ]
     ∧ mergedDependencies result !! "__proto__" = None)
  ∧ (∀ (coerce : string → option Semver.SemVer) repos,
     ∃ depVersions devDepVersions result,
       collectVersions coerce repos = Returned (depVersions, devDepVersions)
       ∧ mergeDependencies coerce repos = Returned result
       ∧ ∀ report, report ∈ outdatedReports result →
           ∃ r l1 l2,
             r ∈ repos ∧ path r = repoPath report
             ∧ checkDependencies coerce depVersions r = Returned l1
             ∧ checkDevDependencies coerce depVersions devDepVersions r l1
               = Returned (l1 ++ l2)
             ∧ outdatedDeps report = l1 ++ l2
             ∧ (∀ e, e ∈ l1 → name e ≠ "__proto__" →
                  mergedDependencies result !! name e = Some (selectedVersion e))
             ∧ (∀ e, e ∈ l2 →
                  SelectAll coerce (declared development (name e) repos)
                  = Returned (Some (selectedVersion e))))
  ∧ ∃ result report e,
      mergeDependencies Coerce.coerce devAboveNormal = Returned result
      ∧ report ∈ outdatedReports result ∧ repoPath report = "A"
      ∧ e ∈ outdatedDeps report
      ∧ declarationOf e = ("x", "^1.0.0") ∧ selectedVersion e = "^2.0.0"
      ∧ mergedDependencies result !! "x" = Some "^1.5.0"
      ∧ mergedDevDependencies result !! "x" = None.
Proof.
  split; [|split].
  - eexists. split; [apply mergeDependencies_returns|].
    split; vm_compute; reflexivity.
  - intros coerce repos. the_returned_values coerce repos.
    intros report Hreport.
    destruct (report_elem coerce _ _ repos report Hreport)
      as (r & Hr & Hpath & Hdeps & _).
    exists r, (outdatedNormal coerce (collect coerce repos).1 r),
      (outdatedDev coerce (collect coerce repos).1 (collect coerce repos).2 r).
    split; [done|]. split; [done|].
    split; [apply checkDependencies_returns|].
    split; [apply checkDevDependencies_returns|].
    split; [done|]. split.
    + intros e He Hname. rewrite merge_normal_lookup, decide_False by done.
      by apply (outdatedNormal_selected coerce repos r).
    + intros e He. rewrite SelectAll_returns. f_equal.
      by apply (outdatedDev_selected coerce repos r).
  - eexists _, {| repoPath := "A" |},
      {| name := "x"; currentVersion := "^1.0.0"; selectedVersion := "^2.0.0" |}.
    split; [apply mergeDependencies_returns|].
    split; [vm_compute; apply list_elem_of_here|].
    split; [reflexivity|].
    split; [apply list_elem_of_here|].
    repeat split; vm_compute; reflexivity.
Qed.

Lemma outdated_selected_version_witness :
  mergedDependencies (merge Coerce.coerce scenario1) !! "lodash" = Some "^4.17.21"
  ∧ SelectAll Coerce.coerce (declared development "x" devAboveNormal)
    = Returned (Some "^2.0.0").
Proof.
  destruct outdated_selected_version as (_ & Hall & _). split.
  - destruct (Hall Coerce.coerce scenario1)
      as (depVersions & devDepVersions & result & Hcollect & Hresult & H).
    rewrite mergeDependencies_returns in Hresult. injection Hresult as <-.
    rewrite collectVersions_returns in Hcollect. injection Hcollect as <- <-.
    destruct (H {| repoPath := "A";
                   outdatedDeps := [ {| name := "lodash"; currentVersion := "^4.17.0";
                                        selectedVersion := "^4.17.21" |} ] |})
      as (r & l1 & l2 & Hr & Hpath & Hl1 & _ & Hdeps & Hnormal & _).
    { vm_compute. apply list_elem_of_here. }
    simpl in Hpath, Hdeps. unfold scenario1 in Hr.
    apply elem_of_cons in Hr as [-> | Hr].
    + rewrite checkDependencies_returns in Hl1. injection Hl1 as <-.
      apply (Hnormal {| name := "lodash"; currentVersion := "^4.17.0";
                        selectedVersion := "^4.17.21" |});
        [vm_compute; apply list_elem_of_here|discriminate].
    + apply elem_of_cons in Hr as [-> | Hr]; [discriminate Hpath|].
      apply elem_of_cons in Hr as [-> | Hr]; [discriminate Hpath|].
      by apply elem_of_nil in Hr.
  - destruct (Hall Coerce.coerce devAboveNormal)
      as (depVersions & devDepVersions & result & Hcollect & Hresult & H).
    rewrite mergeDependencies_returns in Hresult. injection Hresult as <-.
    rewrite collectVersions_returns in Hcollect. injection Hcollect as <- <-.
    destruct (H {| repoPath := "A";
                   outdatedDeps := [ {| name := "x"; currentVersion := "^1.0.0";
                                        selectedVersion := "^2.0.0" |} ] |})
      as (r & l1 & l2 & Hr & Hpath & Hl1 & _ & Hdeps & _ & Hdev).
    { vm_compute. apply list_elem_of_here. }
    simpl in Hpath, Hdeps. unfold devAboveNormal in Hr.
    apply elem_of_cons in Hr as [-> | Hr].
    + rewrite checkDependencies_returns in Hl1. injection Hl1 as <-.
      vm_compute in Hdeps. subst l2.
      apply (Hdev {| name := "x"; currentVersion := "^1.0.0";
                     selectedVersion := "^2.0.0" |}).
      apply list_elem_of_here.
    + apply elem_of_cons in Hr as [-> | Hr]; [discriminate Hpath|].
      apply elem_of_cons in Hr as [-> | Hr]; [discriminate Hpath|].
      by apply elem_of_nil in Hr.
Defined.

(** ** Further properties of the merger *)

Section ProcessPackage.

Variable coerce : string → option Semver.SemVer.

(** The second argument of [select] wins only when it is parseable and
    the first is unparseable or strictly lower. *)
Lemma select_second v1 v2 :
  (select coerce v1 v2).1 ≠ v1 →
  (select coerce v1 v2).1 = v2
  ∧ ∃ b, coerce v2 = Some b
      ∧ (coerce v1 = None
         ∨ ∃ a, coerce v1 = Some a ∧ Semver.compareMain b a = Gt).
Proof.
  unfold select.
  destruct (coerce v1) as [a|] eqn:H1, (coerce v2) as [b|] eqn:H2; simpl; try done.
  - pose proof (SemverFacts.compareMain_antisym a b) as Hanti.
    destruct (Semver.compareMain a b) eqn:Hc; simpl; try done.
    intros _. split; [done|]. exists b. split; [done|]. right. by exists a.
  - intros _. split; [done|]. exists b. auto.
Qed.

(** X1: processPackage touches the entry of its package only: every other
    entry is the same object as before, the names keep their places and a
    new name goes last.  The entry of the package records the specifier
    under the repository's path and keeps every other source.  Its
    version is the specifier for a new name; for a known name it is
    replaced only by a parseable specifier, and only when the old version
    is unparseable or strictly lower. *)
Theorem processPackage_frame versionMap pkg spec repoPath :
  ∃ versionMap',
    processPackage coerce versionMap pkg spec repoPath = Returned versionMap'
    ∧ (∀ other, other ≠ pkg → Map_get versionMap' other = Map_get versionMap other)
    ∧ versionMap'.*1
      = (if decide (pkg ∈ versionMap.*1) then versionMap.*1
         else versionMap.*1 ++ [pkg])
    ∧ ∃ entry,
        Map_get versionMap' pkg = Some entry
        ∧ Map_get (sources entry) repoPath = Some spec
        ∧ (∀ p, p ≠ repoPath →
             Map_get (sources entry) p
             = Map_get versionMap pkg ≫= λ old, Map_get (sources old) p)
        ∧ (Map_get versionMap pkg = None → version entry = spec)
        ∧ (∀ old, Map_get versionMap pkg = Some old →
             version entry ≠ version old →
             version entry = spec
             ∧ ∃ b, Normalize coerce spec = Some b
                 ∧ (Normalize coerce (version old) = None
                    ∨ ∃ a, Normalize coerce (version old) = Some a
                         ∧ Semver.compareMain b a = Gt)).
Proof.
  eexists. split; [apply processPackage_returns|].
  unfold process. split; [|split].
  - intros other Hother.
    destruct (Map_get versionMap pkg); rewrite Map_get_set;
      by rewrite decide_False.
  - destruct (Map_get versionMap pkg); apply Map_set_keys.
  - destruct (Map_get versionMap pkg) as [old|] eqn:Hold;
      (eexists; split; [by rewrite Map_get_set, decide_True|]); simpl.
    + split; [by rewrite Map_get_set, decide_True|].
      split; [by intros p Hp; rewrite Map_get_set, decide_False|].
      split; [done|].
      intros ? [= <-] Hne. rewrite !Normalize_coerce.
      by apply select_second.
    + split; [by rewrite decide_True|].
      split; [by intros p Hp; rewrite decide_False|].
      split; [done|]. done.
Qed.

End ProcessPackage.

Lemma processPackage_frame_witness :
  ∃ versionMap',
    processPackage Coerce.coerce
      [ ("react", {| version := "^18.2.0"; sources := [("A", "^18.2.0")] |});
        ("lodash", {| version := "^4.17.0"; sources := [("A", "^4.17.0")] |}) ]
      "lodash" "^4.17.21" "B" = Returned versionMap'
    ∧ Map_get versionMap' "react"
      = Some {| version := "^18.2.0"; sources := [("A", "^18.2.0")] |}
    ∧ versionMap'.*1 = ["react"; "lodash"].
Proof.
  destruct (processPackage_frame Coerce.coerce
    [ ("react", {| version := "^18.2.0"; sources := [("A", "^18.2.0")] |});
      ("lodash", {| version := "^4.17.0"; sources := [("A", "^4.17.0")] |}) ]
    "lodash" "^4.17.21" "B") as (versionMap' & Hcall & Hframe & Hnames & _).
  exists versionMap'. split; [exact Hcall|]. split.
  - rewrite (Hframe "react"); [reflexivity|discriminate].
  - rewrite Hnames. vm_compute. reflexivity.
Defined.

Section SelectionEntries.

Variable coerce : string → option Semver.SemVer.

Lemma process_recorded m pkg spec repoPath pkg' p :
  recorded (process coerce m pkg spec repoPath) pkg' p
  = if decide (pkg = pkg' ∧ repoPath = p) then Some spec else recorded m pkg' p.
Proof.
  unfold recorded, process.
  destruct (Map_get m pkg) as [old|] eqn:Hold; rewrite Map_get_set;
    destruct (decide (pkg = pkg')) as [<-|Hpkg]; simpl.
  - rewrite Map_get_set, Hold; simpl.
    destruct (decide (repoPath = p)) as [<-|Hp].
    + by rewrite decide_True.
    + by rewrite decide_False by (by intros [_ ?]).
  - by rewrite decide_False by (by intros [? _]).
  - rewrite Hold; simpl. destruct (decide (repoPath = p)) as [<-|Hp].
    + by rewrite decide_True.
    + by rewrite decide_False by (by intros [_ ?]).
  - by rewrite decide_False by (by intros [? _]).
Qed.

Lemma processAll_recorded_sound (P : string → string → string → Prop)
    repoPath decls m :
  (∀ pkg p s, recorded m pkg p = Some s → P pkg p s) →
  (∀ pkg s, (pkg, s) ∈ decls → P pkg repoPath s) →
  ∀ pkg p s,
    recorded (processAll coerce repoPath decls m) pkg p = Some s → P pkg p s.
Proof.
  unfold processAll. revert m.
  induction decls as [|[pkg0 spec0] decls IH]; intros m Hm Hdecls; simpl; [done|].
  apply IH.
  - intros pkg p s. rewrite process_recorded.
    destruct (decide _) as [[<- <-]|_]; [|by apply Hm].
    intros [= <-]. apply Hdecls, list_elem_of_here.
  - intros pkg s Hin. by apply Hdecls, list_elem_of_further.
Qed.

Lemma processAll_recorded_complete repoPath decls m pkg p :
  is_Some (recorded m pkg p) ∨ (p = repoPath ∧ ∃ s, (pkg, s) ∈ decls) →
  is_Some (recorded (processAll coerce repoPath decls m) pkg p).
Proof.
  unfold processAll. revert m.
  induction decls as [|[pkg0 spec0] decls IH]; intros m; simpl.
  - intros [H|(_ & s & Hin)]; [done|]. by apply elem_of_nil in Hin.
  - intros H. apply IH. rewrite process_recorded.
    destruct (decide (pkg0 = pkg ∧ repoPath = p)) as [_|Hne]; [by left; eexists|].
    destruct H as [H|(-> & s & Hin)]; [by left|].
    apply elem_of_cons in Hin as [[= <- <-]|Hin]; [|by right; eauto].
    by destruct Hne.
Qed.

(** What the two maps record, stated for the fold that builds them. *)
Lemma collect_fold_recorded (P1 P2 : string → string → string → Prop)
    repos (m1 m2 : list (string * Selection)) :
  (∀ pkg p s, recorded m1 pkg p = Some s → P1 pkg p s) →
  (∀ pkg p s, recorded m2 pkg p = Some s → P2 pkg p s) →
  (∀ r pkg s, r ∈ repos → (pkg, s) ∈ dependencies r → P1 pkg (path r) s) →
  (∀ r pkg s, r ∈ repos → (pkg, s) ∈ devDependencies r → P2 pkg (path r) s) →
  let maps :=
    foldl (λ maps r,
             (processAll coerce (path r) (dependencies r) maps.1,
              processAll coerce (path r) (devDependencies r) maps.2))
          (m1, m2) repos in
  (∀ pkg p s, recorded maps.1 pkg p = Some s → P1 pkg p s)
  ∧ (∀ pkg p s, recorded maps.2 pkg p = Some s → P2 pkg p s).
Proof.
  revert m1 m2.
  induction repos as [|r repos IH]; intros m1 m2 H1 H2 Hd1 Hd2; simpl; [done|].
  apply IH.
  - apply processAll_recorded_sound; [done|].
    intros pkg s Hin. apply Hd1; [apply list_elem_of_here|done].
  - apply processAll_recorded_sound; [done|].
    intros pkg s Hin. apply Hd2; [apply list_elem_of_here|done].
  - intros r' pkg s Hr'. apply Hd1. by apply list_elem_of_further.
  - intros r' pkg s Hr'. apply Hd2. by apply list_elem_of_further.
Qed.

Lemma collect_fold_recorded_complete repos (m1 m2 : list (string * Selection)) :
  let maps :=
    foldl (λ maps r,
             (processAll coerce (path r) (dependencies r) maps.1,
              processAll coerce (path r) (devDependencies r) maps.2))
          (m1, m2) repos in
  (∀ pkg p,
     is_Some (recorded m1 pkg p)
     ∨ (∃ r s, r ∈ repos ∧ path r = p ∧ (pkg, s) ∈ dependencies r) →
     is_Some (recorded maps.1 pkg p))
  ∧ (∀ pkg p,
       is_Some (recorded m2 pkg p)
       ∨ (∃ r s, r ∈ repos ∧ path r = p ∧ (pkg, s) ∈ devDependencies r) →
       is_Some (recorded maps.2 pkg p)).
Proof.
  revert m1 m2. induction repos as [|r repos IH]; intros m1 m2; simpl.
  - split; intros pkg p [H|(r & s & Hr & _)]; try done; by apply elem_of_nil in Hr.
  - destruct (IH (processAll coerce (path r) (dependencies r) m1)
                 (processAll coerce (path r) (devDependencies r) m2)) as [IH1 IH2].
    split; intros pkg p H.
    + apply IH1. destruct H as [H|(r' & s & Hr' & Hp & Hin)].
      * left. apply processAll_recorded_complete. by left.
      * apply elem_of_cons in Hr' as [->|Hr'].
        -- left. apply processAll_recorded_complete. right. eauto.
        -- right. eauto.
    + apply IH2. destruct H as [H|(r' & s & Hr' & Hp & Hin)].
      * left. apply processAll_recorded_complete. by left.
      * apply elem_of_cons in Hr' as [->|Hr'].
        -- left. apply processAll_recorded_complete. right. eauto.
        -- right. eauto.
Qed.

End SelectionEntries.

Lemma NoDup_keys_functional {A B} (l : list (A * B)) k v1 v2 :
  NoDup l.*1 → (k, v1) ∈ l → (k, v2) ∈ l → v1 = v2.
Proof.
  induction l as [|[k0 v0] l IH]; [by intros _ ?%elem_of_nil|].
  rewrite fmap_cons. cbn [fst]. intros [Hk0 Hl]%NoDup_cons.
  assert (∀ v, (k0, v) ∈ l → False) as Hfresh.
  { intros v Hv. apply Hk0. apply list_elem_of_fmap. by exists (k0, v). }
  intros [[= -> ->]|H1]%elem_of_cons [[= ->]|H2]%elem_of_cons; try done.
  - by destruct (Hfresh v2).
  - subst. by destruct (Hfresh v1).
  - by apply IH.
Qed.

(** X2: Every package name declared in a class has exactly one Selection
    Entry in the map of that class, and the map has no other entries. *)
Theorem one_entry_per_declared_name (coerce : string → option Semver.SemVer) repos :
  ∃ depVersions devDepVersions,
    collectVersions coerce repos = Returned (depVersions, devDepVersions)
    ∧ NoDup depVersions.*1 ∧ NoDup devDepVersions.*1
    ∧ ∀ pkg,
        (pkg ∈ depVersions.*1
         ↔ ∃ r spec, r ∈ repos ∧ (pkg, spec) ∈ dependencies r)
        ∧ (pkg ∈ devDepVersions.*1
           ↔ ∃ r spec, r ∈ repos ∧ (pkg, spec) ∈ devDependencies r).
Proof.
  exists (collect coerce repos).1, (collect coerce repos).2.
  split; [by rewrite collectVersions_returns; destruct (collect coerce repos)|].
  split; [apply collect_NoDup|]. split; [apply collect_NoDup|].
  assert (∀ cls (m : list (string * Selection)) pkg,
            version <$> Map_get m pkg = chooseFrom coerce None (declared cls pkg repos) →
            pkg ∈ m.*1 ↔ ∃ r spec, r ∈ repos ∧ (pkg, spec) ∈ declarations cls r)
    as Hkeys.
  { intros cls m pkg Hm. split.
    - intros Hin. destruct (Map_get m pkg) as [entry|] eqn:Hget.
      + symmetry in Hm. apply chooseFrom_provenance in Hm as (r & Hr & Hdecl). eauto.
      + by apply Map_get_None in Hget.
    - intros (r & spec & Hr & Hdecl).
      pose proof (chooseFrom_declared coerce cls pkg repos r spec Hr Hdecl) as Hsome.
      rewrite <- Hm in Hsome. destruct (decide (pkg ∈ m.*1)) as [|Hnot]; [done|].
      apply Map_get_None in Hnot. rewrite Hnot in Hsome. by destruct Hsome. }
  intros pkg. split.
  - apply (Hkeys normal), collect_lookup_normal.
  - apply (Hkeys development), collect_lookup_development.
Qed.

(** X3: The sources of a Selection Entry are the repositories that declared
    the package in the class: every recorded source is a declaration of
    the repository with that path, and every declaring repository is
    recorded.  When the paths of the repositories are pairwise different
    and no repository lists a name twice in a class, the recorded
    specifier is the one the repository declared. *)
Theorem sources_are_declarations (coerce : string → option Semver.SemVer) repos :
  ∃ depVersions devDepVersions,
    collectVersions coerce repos = Returned (depVersions, devDepVersions)
    ∧ ∀ cls pkg p,
        let m := match cls with
                 | normal => depVersions
                 | development => devDepVersions
                 end in
        (∀ s, recorded m pkg p = Some s →
              ∃ r, r ∈ repos ∧ path r = p ∧ (pkg, s) ∈ declarations cls r)
        ∧ (∀ r s, r ∈ repos → path r = p → (pkg, s) ∈ declarations cls r →
             is_Some (recorded m pkg p))
        ∧ (NoDup (path <$> repos) →
           (∀ r, r ∈ repos → NoDup (declarations cls r).*1) →
           ∀ r s, r ∈ repos → path r = p → (pkg, s) ∈ declarations cls r →
             recorded m pkg p = Some s).
Proof.
  exists (collect coerce repos).1, (collect coerce repos).2.
  split; [by rewrite collectVersions_returns; destruct (collect coerce repos)|].
  pose proof (collect_fold_recorded coerce
    (λ pkg p s, ∃ r, r ∈ repos ∧ path r = p ∧ (pkg, s) ∈ declarations normal r)
    (λ pkg p s, ∃ r, r ∈ repos ∧ path r = p ∧ (pkg, s) ∈ declarations development r)
    repos [] []) as Hsound.
  simpl in Hsound. destruct Hsound as [Hsound1 Hsound2]; [done|done|eauto|eauto|].
  destruct (collect_fold_recorded_complete coerce repos [] []) as [Hcomplete1 Hcomplete2].
  assert (∀ cls (m : list (string * Selection)) pkg p,
    (∀ s, recorded m pkg p = Some s →
          ∃ r, r ∈ repos ∧ path r = p ∧ (pkg, s) ∈ declarations cls r) →
    ((∃ r s, r ∈ repos ∧ path r = p ∧ (pkg, s) ∈ declarations cls r) →
       is_Some (recorded m pkg p)) →
    NoDup (path <$> repos) →
    (∀ r, r ∈ repos → NoDup (declarations cls r).*1) →
    ∀ r s, r ∈ repos → path r = p → (pkg, s) ∈ declarations cls r →
      recorded m pkg p = Some s) as Hexact.
  { intros cls m pkg p Hs Hc Hpaths Hnames r s Hr Hp Hdecl.
    destruct Hc as [s' Hs']; [eauto|]. rewrite Hs'. f_equal.
    destruct (Hs s' Hs') as (r' & Hr' & Hp' & Hdecl').
    assert (r' = r) as ->.
    { apply list_elem_of_lookup in Hr as [i Hi], Hr' as [j Hj].
      assert (i = j) as ->; [|congruence].
      apply (NoDup_lookup (path <$> repos) i j p); [done|..];
        rewrite list_lookup_fmap; [by rewrite Hi; simpl; f_equal|].
      by rewrite Hj; simpl; f_equal. }
    by apply (NoDup_keys_functional (declarations cls r) pkg s' s); [apply Hnames|..]. }
  intros [] pkg p; simpl.
  - split; [apply Hsound1|]. split.
    + intros r s Hr Hp Hdecl. apply Hcomplete1. right. eauto.
    + apply (Hexact normal); [apply Hsound1|].
      intros H. apply Hcomplete1. by right.
  - split; [apply Hsound2|]. split.
    + intros r s Hr Hp Hdecl. apply Hcomplete2. right. eauto.
    + apply (Hexact development); [apply Hsound2|].
      intros H. apply Hcomplete2. by right.
Qed.

Lemma sources_are_declarations_witness :
  recorded (collect Coerce.coerce scenario1).1 "lodash" "B" = Some "^4.17.21".
Proof.
  destruct (sources_are_declarations Coerce.coerce scenario1)
    as (depVersions & devDepVersions & Hcollect & H).
  rewrite collectVersions_returns in Hcollect. injection Hcollect as <- <-.
  destruct (H normal "lodash" "B") as (_ & _ & Hexact).
  apply Hexact with (r := repo "B" [("lodash", "^4.17.21")] []).
  - apply (bool_decide_eq_true_1 _). vm_compute. reflexivity.
  - intros r Hr. unfold scenario1 in Hr.
    repeat (apply elem_of_cons in Hr as [-> | Hr]; [apply NoDup_singleton|]).
    by apply elem_of_nil in Hr.
  - apply list_elem_of_further, list_elem_of_here.
  - reflexivity.
  - apply list_elem_of_here.
Defined.

Lemma declaredNames_elem cls repos pkg :
  pkg ∈ declaredNames cls repos
  ↔ ∃ r spec, r ∈ repos ∧ (pkg, spec) ∈ declarations cls r.
Proof.
  unfold declaredNames. rewrite elem_of_list_to_set, list_elem_of_In, in_flat_map.
  split.
  - intros (r & Hr & Hpkg). apply list_elem_of_In in Hr, Hpkg.
    apply list_elem_of_fmap in Hpkg as ([p spec] & -> & Hin). eauto.
  - intros (r & spec & Hr & Hin). exists r. rewrite <- !list_elem_of_In.
    split; [done|]. apply list_elem_of_fmap. by exists (pkg, spec).
Qed.

Lemma geb_antisym x y :
  Semver.geb x y = true → Semver.geb y x = true → x = y.
Proof.
  unfold Semver.geb. rewrite (SemverFacts.compareMain_antisym x y).
  destruct (Semver.compareMain x y) eqn:Hc; try done.
  intros _ _. by apply SemverFacts.compareMain_Eq.
Qed.

Lemma lt_geb_lt c c' v :
  Semver.compareMain c c' = Lt → Semver.geb v c' = true →
  Semver.compareMain c v = Lt.
Proof.
  unfold Semver.geb.
  pose proof (SemverFacts.compareMain_spec c c').
  pose proof (SemverFacts.compareMain_spec v c').
  pose proof (SemverFacts.compareMain_spec c v).
  destruct (Semver.compareMain c c'), (Semver.compareMain v c'),
    (Semver.compareMain c v); simpl; try done; lia.
Qed.

Lemma merge_dom_normal (coerce : string → option Semver.SemVer) repos :
  dom (mergedDependencies (merge coerce repos))
  = declaredNames normal repos ∖ {["__proto__"]}.
Proof.
  apply set_eq. intros pkg.
  rewrite elem_of_dom, elem_of_difference, not_elem_of_singleton, declaredNames_elem.
  split.
  - intros [sel [Hpkg Hsel]%merge_normal_Some].
    apply chooseFrom_provenance in Hsel as (r & Hr & Hdecl). eauto.
  - intros [(r & spec & Hr & Hdecl) Hpkg].
    rewrite merge_normal_lookup, decide_False by done.
    by apply (chooseFrom_declared _ _ _ _ r spec).
Qed.

Lemma merge_dom_development (coerce : string → option Semver.SemVer) repos :
  dom (mergedDevDependencies (merge coerce repos))
  ⊆ declaredNames development repos ∖ {["__proto__"]}.
Proof.
  intros pkg.
  rewrite elem_of_dom, elem_of_difference, not_elem_of_singleton, declaredNames_elem.
  intros [sel (Hpkg & _ & Hsel)%merge_development_Some].
  apply chooseFrom_provenance in Hsel as (r & Hr & Hdecl). eauto.
Qed.

(** The read [mergedDependencies[name]] in terms of the declarations: it
    is falsy when the normal selection of the name is the empty string,
    and when the name is not declared as a normal dependency and is not a
    member of [Object.prototype]. *)
Lemma merge_read_falsy (coerce : string → option Semver.SemVer) repos pkg :
  pkg ≠ "__proto__" →
  property_truthy (mergedDependencies (merge coerce repos)) pkg = false
  ↔ SelectAll coerce (declared normal pkg repos) = Returned (Some EmptyString)
    ∨ ((pkg ∉ declaredNames normal repos) ∧ (pkg ∉ Object_prototype)).
Proof.
  intros Hpkg. unfold property_truthy.
  rewrite merge_normal_lookup, decide_False, SelectAll_returns by done.
  destruct (chooseFrom coerce None (declared normal pkg repos)) as [s|] eqn:Hs.
  - unfold truthy, truthy_value.
    destruct (decide (s = EmptyString)) as [->|Hne].
    + split; [by left|done].
    + split; [done|]. intros [[= ->]|[Hnot _]]; [done|].
      destruct Hnot. apply declaredNames_elem.
      apply chooseFrom_provenance in Hs as (r & Hr & Hdecl). eauto.
  - rewrite bool_decide_eq_false. split.
    + intros Hproto. right. split; [|done].
      rewrite declaredNames_elem. intros (r & spec & Hr & Hdecl).
      destruct (chooseFrom_declared coerce normal pkg repos r spec Hr Hdecl) as [? ?].
      congruence.
    + by intros [[=]|[_ ?]].
Qed.

(** X4: The merged normal mapping holds, under every name declared as a
    normal dependency except [__proto__], the normal selection, and
    nothing else.  The merged development mapping holds a name other
    than [__proto__] exactly when the name has a development selection
    and the read of the name in the merged normal mapping is falsy: the
    normal selection is the empty string, or the name is not declared as
    a normal dependency and is not a member of [Object.prototype], such
    as constructor or toString; the value is then the development
    selection. *)
Theorem merged_mapping_names (coerce : string → option Semver.SemVer) repos :
  ∃ result,
    mergeDependencies coerce repos = Returned result
    ∧ dom (mergedDependencies result) = declaredNames normal repos ∖ {["__proto__"]}
    ∧ dom (mergedDevDependencies result)
      ⊆ declaredNames development repos ∖ {["__proto__"]}
    ∧ (∀ pkg spec,
         mergedDependencies result !! pkg = Some spec
         ↔ pkg ≠ "__proto__"
           ∧ SelectAll coerce (declared normal pkg repos) = Returned (Some spec))
    ∧ ∀ pkg spec,
        mergedDevDependencies result !! pkg = Some spec
        ↔ pkg ≠ "__proto__"
          ∧ SelectAll coerce (declared development pkg repos) = Returned (Some spec)
          ∧ (SelectAll coerce (declared normal pkg repos)
             = Returned (Some EmptyString)
             ∨ ((pkg ∉ declaredNames normal repos) ∧ (pkg ∉ Object_prototype))).
Proof.
  exists (merge coerce repos). split; [apply mergeDependencies_returns|].
  split; [apply merge_dom_normal|]. split; [apply merge_dom_development|].
  split.
  - intros pkg spec. rewrite merge_normal_lookup, SelectAll_returns.
    case_decide as Hpkg; [by split; [|intros [? _]]|].
    split; [by intros ->|by intros [_ [= ->]]].
  - intros pkg spec. rewrite merge_development_lookup.
    case_decide as Hpkg; [by split; [|intros [? _]]|].
    rewrite <- (merge_read_falsy coerce repos pkg Hpkg), SelectAll_returns.
    destruct (property_truthy _ _).
    + split; [done|]. by intros (_ & _ & ?).
    + split; [by intros ->|by intros (_ & [= ->] & _)].
Qed.

Lemma merged_mapping_names_witness :
  let result :=
    merge Coerce.coerce
      [ repo "A" [("lodash", "^4.17.0")]
          [("lodash", "^4.0.0"); ("constructor", "^1.0.0"); ("jest", "^29.0.0")] ] in
  mergedDevDependencies result !! "jest" = Some "^29.0.0"
  ∧ mergedDevDependencies result !! "constructor" = None
  ∧ mergedDevDependencies result !! "lodash" = None.
Proof.
  intros result.
  destruct (merged_mapping_names Coerce.coerce
    [ repo "A" [("lodash", "^4.17.0")]
        [("lodash", "^4.0.0"); ("constructor", "^1.0.0"); ("jest", "^29.0.0")] ])
    as (result' & Hresult & _ & _ & _ & Hdev).
  rewrite mergeDependencies_returns in Hresult. injection Hresult as <-.
  assert (∀ pkg, pkg ≠ "lodash" →
            pkg ∉ declaredNames normal
                    [ repo "A" [("lodash", "^4.17.0")]
                        [("lodash", "^4.0.0"); ("constructor", "^1.0.0");
                         ("jest", "^29.0.0")] ]) as Hnormal.
  { intros pkg Hpkg (r & spec & ->%list_elem_of_singleton & Hdecl)%declaredNames_elem.
    apply list_elem_of_singleton in Hdecl. by simplify_eq. }
  split; [|split].
  - apply Hdev. split; [discriminate|]. split; [vm_compute; reflexivity|].
    right. split; [by apply Hnormal|].
    apply (bool_decide_eq_false_1 _). vm_compute. reflexivity.
  - apply eq_None_not_Some. intros [spec (_ & _ & [Hempty|[_ Hproto]])%Hdev].
    + by vm_compute in Hempty.
    + apply Hproto. apply (bool_decide_eq_true_1 _). vm_compute. reflexivity.
  - apply eq_None_not_Some. intros [spec (_ & _ & [Hempty|[Hnot _]])%Hdev].
    + by vm_compute in Hempty.
    + apply Hnot. apply declaredNames_elem.
      eexists _, "^4.17.0". split; [apply list_elem_of_here|].
      apply list_elem_of_here.
Defined.

(** X5: Adding repositories to the input never removes a name from the
    merged normal mapping and never lowers the Concrete Version selected
    for it, wherever the new repositories stand in the list. *)
Theorem merge_monotone (coerce : string → option Semver.SemVer)
    (repos repos' : list RepoData) :
  repos ⊆ repos' →
  ∃ result result',
    mergeDependencies coerce repos = Returned result
    ∧ mergeDependencies coerce repos' = Returned result'
    ∧ ∀ pkg sel, mergedDependencies result !! pkg = Some sel →
        ∃ sel', mergedDependencies result' !! pkg = Some sel'
          ∧ ∀ v, Normalize coerce sel = Some v →
              ∃ v', Normalize coerce sel' = Some v' ∧ Semver.geb v' v = true.
Proof.
  intros Hsub. exists (merge coerce repos), (merge coerce repos').
  split; [apply mergeDependencies_returns|].
  split; [apply mergeDependencies_returns|].
  intros pkg sel [Hpkg Hsel]%merge_normal_Some.
  rewrite merge_normal_lookup, decide_False by done.
  apply chooseFrom_provenance in Hsel as (r & Hr & Hdecl).
  apply Hsub in Hr.
  destruct (chooseFrom_declared coerce normal pkg repos' r sel Hr Hdecl) as [sel' Hsel'].
  exists sel'. split; [done|]. intros v. rewrite !Normalize_coerce. intros Hv.
  destruct (chooseFrom_declared_highest coerce normal pkg repos' r sel v Hr Hdecl Hv)
    as (sel'' & v' & Hsel'' & Hv' & Hmax).
  simplify_eq. exists v'. split; [done|]. by apply (Hmax r sel v).
Qed.

Lemma merge_monotone_witness :
  ∃ sel', mergedDependencies (merge Coerce.coerce scenario1) !! "lodash" = Some sel'
    ∧ ∃ v', Normalize Coerce.coerce sel' = Some v'
        ∧ Semver.geb v' (Semver.mkSemVer 4 17 0 I) = true.
Proof.
  destruct (merge_monotone Coerce.coerce [repo "A" [("lodash", "^4.17.0")] []] scenario1)
    as (result & result' & Hresult & Hresult' & H).
  { intros r Hr. apply list_elem_of_singleton in Hr as ->. apply list_elem_of_here. }
  rewrite mergeDependencies_returns in Hresult, Hresult'.
  injection Hresult as <-. injection Hresult' as <-.
  destruct (H "lodash" "^4.17.0") as (sel' & Hsel' & Hv'); [vm_compute; reflexivity|].
  exists sel'. split; [done|]. apply Hv'. vm_compute. reflexivity.
Defined.

(** X6: The Concrete Version selected for a package does not depend on the
    order of the repositories: two inputs that are permutations of each
    other give merged normal mappings with the same names and, under
    each name, specifiers with the same Concrete Version (both
    unparseable, or both parseable and equal). *)
Theorem merge_order_independent (coerce : string → option Semver.SemVer)
    (repos repos' : list RepoData) :
  repos ≡ₚ repos' →
  ∃ result result',
    mergeDependencies coerce repos = Returned result
    ∧ mergeDependencies coerce repos' = Returned result'
    ∧ dom (mergedDependencies result) = dom (mergedDependencies result')
    ∧ ∀ pkg sel sel',
        mergedDependencies result !! pkg = Some sel →
        mergedDependencies result' !! pkg = Some sel' →
        Normalize coerce sel = Normalize coerce sel'.
Proof.
  intros Hperm.
  assert (∀ cls pkg spec, spec ∈ declared cls pkg repos ↔ spec ∈ declared cls pkg repos')
    as Hdeclared.
  { intros cls pkg spec. rewrite !declared_elem.
    split; intros (r & Hr & Hdecl); exists r; split; try done.
    - by rewrite <- Hperm.
    - by rewrite Hperm. }
  assert (∀ l l' sel sel',
            (∀ spec, spec ∈ l ↔ spec ∈ l') →
            chooseFrom coerce None l = Some sel →
            chooseFrom coerce None l' = Some sel' →
            ∀ v, coerce sel = Some v → ∃ v', coerce sel' = Some v' ∧ Semver.geb v' v = true)
    as Hhigher.
  { intros l l' sel sel' Hll' Hsel Hsel' v Hv.
    apply (chooseFrom_None_highest coerce l' sel' sel v Hsel'); [|done].
    apply Hll'. by apply chooseFrom_elem in Hsel as [|]. }
  exists (merge coerce repos), (merge coerce repos').
  split; [apply mergeDependencies_returns|].
  split; [apply mergeDependencies_returns|].
  split.
  - apply set_eq. intros pkg. rewrite !elem_of_dom, !merge_normal_lookup.
    case_decide; [done|].
    split; intros [sel Hsel]; apply chooseFrom_is_Some; right; intros Hnil;
      apply chooseFrom_elem in Hsel as [|Hin]; try done;
      apply Hdeclared in Hin; rewrite Hnil in Hin; by apply elem_of_nil in Hin.
  - intros pkg sel sel'. rewrite !Normalize_coerce.
    intros [_ Hsel]%merge_normal_Some [_ Hsel']%merge_normal_Some.
    pose proof (Hhigher _ _ sel sel' (Hdeclared normal pkg) Hsel Hsel') as H1.
    pose proof (Hhigher _ _ sel' sel (λ spec, symmetry (Hdeclared normal pkg spec))
                  Hsel' Hsel) as H2.
    destruct (coerce sel) as [v|] eqn:Hv, (coerce sel') as [v'|] eqn:Hv'.
    + destruct (H1 v eq_refl) as (w' & [= <-] & Hge).
      destruct (H2 v' eq_refl) as (w & [= <-] & Hge').
      f_equal. by apply geb_antisym.
    + by destruct (H1 v eq_refl) as (? & [=] & _).
    + by destruct (H2 v' eq_refl) as (? & [=] & _).
    + done.
Qed.

Lemma merge_order_independent_witness :
  Normalize Coerce.coerce "^4.17.21"
  = Normalize Coerce.coerce
      (default EmptyString
         (mergedDependencies (merge Coerce.coerce (reverse scenario1)) !! "lodash")).
Proof.
  destruct (merge_order_independent Coerce.coerce scenario1 (reverse scenario1))
    as (result & result' & Hresult & Hresult' & _ & H).
  { symmetry. apply reverse_Permutation. }
  rewrite mergeDependencies_returns in Hresult, Hresult'.
  injection Hresult as <-. injection Hresult' as <-.
  destruct (mergedDependencies (merge Coerce.coerce (reverse scenario1)) !! "lodash")
    as [sel'|] eqn:Hsel'; [|by vm_compute in Hsel'].
  apply (H "lodash"); [vm_compute; reflexivity|exact Hsel'].
Defined.

(** X7: A declaration of a repository of the input is flagged outdated
    exactly when it is parseable and some repository declares the same
    package in the same class with a strictly higher Concrete Version. *)
Theorem flagged_iff_higher_declared (coerce : string → option Semver.SemVer) repos :
  ∃ depVersions devDepVersions,
    collectVersions coerce repos = Returned (depVersions, devDepVersions)
    ∧ ∀ r, r ∈ repos → ∃ l1 l2,
        checkDependencies coerce depVersions r = Returned l1
        ∧ checkDevDependencies coerce depVersions devDepVersions r l1
          = Returned (l1 ++ l2)
        ∧ ∀ cls pkg spec,
            (∃ e, e ∈ match cls with normal => l1 | development => l2 end
                  ∧ declarationOf e = (pkg, spec))
            ↔ (pkg, spec) ∈ declarations cls r
              ∧ ∃ c, Normalize coerce spec = Some c
                  ∧ ∃ r' spec' c',
                      r' ∈ repos ∧ (pkg, spec') ∈ declarations cls r'
                      ∧ Normalize coerce spec' = Some c'
                      ∧ Semver.compareMain c c' = Lt.
Proof.
  exists (collect coerce repos).1, (collect coerce repos).2.
  split; [by rewrite collectVersions_returns; destruct (collect coerce repos)|].
  intros r Hr.
  exists (outdatedNormal coerce (collect coerce repos).1 r),
         (outdatedDev coerce (collect coerce repos).1 (collect coerce repos).2 r).
  split; [apply checkDependencies_returns|].
  split; [apply checkDevDependencies_returns|].
  assert (∀ cls pkg spec c r' spec' c',
            (pkg, spec) ∈ declarations cls r → coerce spec = Some c →
            r' ∈ repos → (pkg, spec') ∈ declarations cls r' →
            coerce spec' = Some c' → Semver.compareMain c c' = Lt →
            ∃ sel chosen,
              chooseFrom coerce None (declared cls pkg repos) = Some sel
              ∧ coerce sel = Some chosen
              ∧ Semver.compareMain c chosen = Lt ∧ spec ≠ sel) as Hsel.
  { intros cls pkg spec c r' spec' c' Hdecl Hc Hr' Hdecl' Hc' Hlt.
    destruct (chooseFrom_declared_highest coerce cls pkg repos r' spec' c' Hr' Hdecl' Hc')
      as (sel & chosen & Hsel & Hchosen & Hmax).
    exists sel, chosen. split; [done|]. split; [done|].
    assert (Semver.compareMain c chosen = Lt) as Hlt'.
    { apply (lt_geb_lt c c' chosen Hlt). by apply (Hmax r' spec' c'). }
    split; [done|]. intros ->. simplify_eq.
    by rewrite SemverFacts.compareMain_refl in Hlt'. }
  intros [] pkg spec; simpl; split.
  - intros (e & [Hdecl Hflag]%outdatedNormal_elem & He). rewrite He in Hdecl.
    injection He as <- <-.
    destruct Hflag as (sel & Hget & Hversion & c & chosen & Hc & Hchosen & Hlt & _).
    split; [done|]. exists c. split; [done|].
    assert (chooseFrom coerce None (declared normal (name e) repos)
            = Some (selectedVersion e)) as Hsel'
      by (by rewrite <- collect_lookup_normal, Hget, <- Hversion).
    apply chooseFrom_provenance in Hsel' as (r' & Hr' & Hdecl').
    by exists r', (selectedVersion e), chosen.
  - intros (Hdecl & c & Hc & r' & spec' & c' & Hr' & Hdecl' & Hc' & Hlt).
    rewrite Normalize_coerce in Hc, Hc'.
    destruct (Hsel normal pkg spec c r' spec' c') as (sel & chosen & Hchoose & Hchosen & Hlt' & Hne);
      try done.
    exists {| name := pkg; currentVersion := spec; selectedVersion := sel |}.
    split; [|done]. apply outdatedNormal_elem. split; [done|]. simpl.
    rewrite <- collect_lookup_normal in Hchoose.
    destruct (Map_get (collect coerce repos).1 pkg) as [entry|]; [|done].
    injection Hchoose as <-.
    exists entry. split; [done|]. split; [done|].
    exists c, chosen. by rewrite !Normalize_coerce.
  - intros (e & He' & He). pose proof He' as [Hdecl Hflag]%outdatedDev_elem.
    pose proof (outdatedDev_selected coerce repos r e Hr He') as Hsel'.
    rewrite He in Hdecl. injection He as <- <-.
    destruct Hflag as (sel & Hget & Hversion & c & chosen & Hc & Hchosen & Hlt & _).
    split; [done|]. exists c. split; [done|].
    apply chooseFrom_provenance in Hsel' as (r' & Hr' & Hdecl').
    by exists r', (selectedVersion e), chosen.
  - intros (Hdecl & c & Hc & r' & spec' & c' & Hr' & Hdecl' & Hc' & Hlt).
    rewrite Normalize_coerce in Hc, Hc'.
    destruct (Hsel development pkg spec c r' spec' c') as (sel & chosen & Hchoose & Hchosen & Hlt' & Hne);
      try done.
    exists {| name := pkg; currentVersion := spec; selectedVersion := sel |}.
    split; [|done]. apply outdatedDev_elem. split; [done|]. simpl.
    destruct (devSelected_declared coerce repos r pkg spec Hr Hdecl) as [-> _].
    rewrite <- collect_lookup_development in Hchoose.
    destruct (Map_get (collect coerce repos).2 pkg) as [entry|]; [|done].
    injection Hchoose as <-.
    exists entry. split; [done|]. split; [done|].
    exists c, chosen. by rewrite !Normalize_coerce.
Qed.

Lemma flagged_iff_higher_declared_witness :
  ∃ l2 e,
    checkDevDependencies Coerce.coerce (collect Coerce.coerce devAboveNormal).1
      (collect Coerce.coerce devAboveNormal).2 (repo "A" [] [("x", "^1.0.0")]) []
    = Returned ([] ++ l2)
    ∧ e ∈ l2 ∧ declarationOf e = ("x", "^1.0.0").
Proof.
  destruct (flagged_iff_higher_declared Coerce.coerce devAboveNormal)
    as (depVersions & devDepVersions & Hcollect & H).
  rewrite collectVersions_returns in Hcollect. injection Hcollect as <- <-.
  destruct (H (repo "A" [] [("x", "^1.0.0")])) as (l1 & l2 & Hl1 & Hl2 & Hiff);
    [apply list_elem_of_here|].
  rewrite checkDependencies_returns in Hl1. injection Hl1 as <-.
  destruct (proj2 (Hiff development "x" "^1.0.0")) as (e & He & Hdecl).
  { split; [apply list_elem_of_here|].
    exists (Semver.mkSemVer 1 0 0 I). split; [vm_compute; reflexivity|].
    exists (repo "B" [] [("x", "^2.0.0")]), "^2.0.0", (Semver.mkSemVer 2 0 0 I).
    split; [apply list_elem_of_further, list_elem_of_here|].
    split; [apply list_elem_of_here|].
    split; vm_compute; reflexivity. }
  exists l2, e. split; [exact Hl2|]. by split.
Defined.

(** X8: A package that every repository declares with the same specifier in a
    class gets no outdated entry in that class, whatever the specifier
    is. *)
Theorem identical_declarations_not_flagged (coerce : string → option Semver.SemVer)
    repos cls pkg s :
  (∀ r spec, r ∈ repos → (pkg, spec) ∈ declarations cls r → spec = s) →
  ∃ depVersions devDepVersions,
    collectVersions coerce repos = Returned (depVersions, devDepVersions)
    ∧ ∀ r, r ∈ repos → ∃ l1 l2,
        checkDependencies coerce depVersions r = Returned l1
        ∧ checkDevDependencies coerce depVersions devDepVersions r l1
          = Returned (l1 ++ l2)
        ∧ ∀ e, e ∈ match cls with normal => l1 | development => l2 end →
               name e ≠ pkg.
Proof.
  intros Hsame.
  exists (collect coerce repos).1, (collect coerce repos).2.
  split; [by rewrite collectVersions_returns; destruct (collect coerce repos)|].
  intros r Hr.
  exists (outdatedNormal coerce (collect coerce repos).1 r),
         (outdatedDev coerce (collect coerce repos).1 (collect coerce repos).2 r).
  split; [apply checkDependencies_returns|].
  split; [apply checkDevDependencies_returns|].
  assert (∀ e, declarationOf e ∈ declarations cls r →
               chooseFrom coerce None (declared cls (name e) repos)
               = Some (selectedVersion e) →
               currentVersion e ≠ selectedVersion e → name e ≠ pkg) as Hno.
  { intros e Hdecl Hsel Hne <-.
    apply chooseFrom_provenance in Hsel as (r' & Hr' & Hdecl').
    apply Hne. by rewrite (Hsame r (currentVersion e)), (Hsame r' (selectedVersion e)). }
  destruct cls; intros e He.
  - pose proof (outdatedNormal_selected coerce repos r e He) as Hsel.
    apply outdatedNormal_elem in He as [Hdecl (_ & _ & _ & _ & _ & _ & _ & _ & Hne)].
    by apply Hno.
  - pose proof (outdatedDev_selected coerce repos r e Hr He) as Hsel.
    apply outdatedDev_elem in He as [Hdecl (_ & _ & _ & _ & _ & _ & _ & _ & Hne)].
    by apply Hno.
Qed.

Lemma identical_declarations_not_flagged_witness :
  ∃ l1,
    checkDependencies Coerce.coerce
      (collect Coerce.coerce
         [repo "A" [("foo", "1.0.0")] []; repo "B" [("foo", "1.0.0")] []]).1
      (repo "A" [("foo", "1.0.0")] []) = Returned l1
    ∧ ∀ e, e ∈ l1 → name e ≠ "foo".
Proof.
  destruct (identical_declarations_not_flagged Coerce.coerce
              [repo "A" [("foo", "1.0.0")] []; repo "B" [("foo", "1.0.0")] []]
              normal "foo" "1.0.0")
    as (depVersions & devDepVersions & Hcollect & H).
  { intros r spec Hr Hdecl.
    repeat (apply elem_of_cons in Hr as [-> | Hr];
            [by apply list_elem_of_singleton in Hdecl as [= ->]|]).
    by apply elem_of_nil in Hr. }
  rewrite collectVersions_returns in Hcollect. injection Hcollect as <- <-.
  destruct (H (repo "A" [("foo", "1.0.0")] [])) as (l1 & l2 & Hl1 & _ & Hno);
    [apply list_elem_of_here|].
  exists l1. split; [exact Hl1|exact Hno].
Defined.

(** X9: A single repository that lists every name once per class: there is no
    Outdated Report, the merged normal mapping is the repository's
    dependencies without [__proto__], and the merged development mapping
    is its development dependencies without [__proto__], without the
    names that are also normal dependencies with a specifier that is not
    empty, and without the members of [Object.prototype] that are not
    normal dependencies. *)
Theorem single_repository (coerce : string → option Semver.SemVer) r :
  NoDup (dependencies r).*1 → NoDup (devDependencies r).*1 →
  ∃ result,
    mergeDependencies coerce [r] = Returned result
    ∧ outdatedReports result = []
    ∧ (∀ pkg spec, mergedDependencies result !! pkg = Some spec
                   ↔ pkg ≠ "__proto__" ∧ (pkg, spec) ∈ dependencies r)
    ∧ (∀ pkg spec, mergedDevDependencies result !! pkg = Some spec
                   ↔ pkg ≠ "__proto__"
                     ∧ (pkg, spec) ∈ devDependencies r
                     ∧ (∀ s, (pkg, s) ∈ dependencies r → s = EmptyString)
                     ∧ (pkg ∈ Object_prototype → pkg ∈ (dependencies r).*1)).
Proof.
  intros Hdeps HdevDeps.
  assert (∀ cls, NoDup (declarations cls r).*1) as Hnames by (by intros []).
  assert (∀ cls pkg spec,
            chooseFrom coerce None (declared cls pkg [r]) = Some spec
            ↔ (pkg, spec) ∈ declarations cls r) as Hchoose.
  { intros cls pkg spec. split.
    - intros (r' & ->%list_elem_of_singleton & Hdecl)%chooseFrom_provenance. done.
    - intros Hdecl.
      destruct (chooseFrom_declared coerce cls pkg [r] r spec) as [sel Hsel];
        [apply list_elem_of_here|done|].
      rewrite Hsel. f_equal.
      apply chooseFrom_provenance in Hsel as (r' & ->%list_elem_of_singleton & Hdecl').
      by apply (NoDup_keys_functional (declarations cls r) pkg). }
  assert (∀ pkg, pkg ∈ declaredNames normal [r] ↔ pkg ∈ (dependencies r).*1) as Hdeclared.
  { intros pkg. rewrite declaredNames_elem, list_elem_of_fmap. split.
    - intros (r' & spec & ->%list_elem_of_singleton & Hdecl). by exists (pkg, spec).
    - intros ([p spec] & -> & Hdecl). exists r, spec.
      split; [apply list_elem_of_here|done]. }
  exists (merge coerce [r]). split; [apply mergeDependencies_returns|].
  split; [|split].
  - unfold merge. cbn [outdatedReports omap list_omap]. unfold reportOf.
    destruct (outdatedOf coerce (collect coerce [r]).1 (collect coerce [r]).2 r)
      as [|e l] eqn:Hentries; [done|].
    assert (e ∈ outdatedOf coerce (collect coerce [r]).1 (collect coerce [r]).2 r)
      as He by (rewrite Hentries; apply list_elem_of_here).
    exfalso. unfold outdatedOf in He. apply elem_of_app in He as [He|He].
    + pose proof (outdatedNormal_selected coerce [r] r e He) as Hsel.
      apply (Hchoose normal) in Hsel.
      apply outdatedNormal_elem in He as [Hdecl (_ & _ & _ & _ & _ & _ & _ & _ & Hne)].
      apply Hne.
      by apply (NoDup_keys_functional (dependencies r) (name e)).
    + pose proof (outdatedDev_selected coerce [r] r e (list_elem_of_here _ _) He) as Hsel.
      apply (Hchoose development) in Hsel.
      apply outdatedDev_elem in He as [Hdecl (_ & _ & _ & _ & _ & _ & _ & _ & Hne)].
      apply Hne.
      by apply (NoDup_keys_functional (devDependencies r) (name e)).
  - intros pkg spec. rewrite merge_normal_lookup.
    case_decide as Hpkg; [by split; [|intros [? _]]|].
    rewrite (Hchoose normal). split; [done|by intros [_ ?]].
  - intros pkg spec. rewrite merge_development_lookup.
    case_decide as Hpkg; [by split; [|intros [? _]]|].
    destruct (property_truthy (mergedDependencies (merge coerce [r])) pkg) eqn:Hread.
    + split; [done|]. intros (_ & _ & Hempty & Hproto).
      assert (property_truthy (mergedDependencies (merge coerce [r])) pkg = false)
        as Hfalse; [|congruence].
      apply merge_read_falsy; [done|]. rewrite SelectAll_returns, Hdeclared.
      destruct (decide (pkg ∈ (dependencies r).*1)) as [Hin|Hnot].
      * left. f_equal. apply list_elem_of_fmap in Hin as ([p s] & -> & Hin).
        rewrite (Hempty s Hin) in Hin. by apply (Hchoose normal).
      * right. split; [done|]. intros Hin. by apply Hnot, Hproto.
    + apply merge_read_falsy in Hread; [|done].
      rewrite SelectAll_returns, Hdeclared in Hread.
      rewrite (Hchoose development).
      split; [|by intros (_ & ? & _)].
      intros Hdev. split; [done|]. split; [done|].
      destruct Hread as [[= Hsel]|[Hnot Hproto]].
      * apply (Hchoose normal) in Hsel. split.
        -- intros s Hs. by apply (NoDup_keys_functional (dependencies r) pkg).
        -- intros _. apply list_elem_of_fmap. by exists (pkg, EmptyString).
      * split; [|done]. intros s Hs. destruct Hnot.
        apply list_elem_of_fmap. by exists (pkg, s).
Qed.

Lemma single_repository_witness :
  outdatedReports
    (merge Coerce.coerce
       [repo "A" [("foo", "^1.0.0")] [("foo", "^2.0.0"); ("toString", "^1.0.0")]]) = []
  ∧ mergedDevDependencies
      (merge Coerce.coerce
         [repo "A" [("foo", "^1.0.0")] [("foo", "^2.0.0"); ("toString", "^1.0.0")]])
    !! "toString" = None.
Proof.
  destruct (single_repository Coerce.coerce
              (repo "A" [("foo", "^1.0.0")] [("foo", "^2.0.0"); ("toString", "^1.0.0")]))
    as (result & Hresult & Hreports & _ & Hdev).
  - simpl. apply NoDup_singleton.
  - simpl. apply NoDup_cons. split; [|apply NoDup_singleton].
    intros [=]%list_elem_of_singleton.
  - rewrite mergeDependencies_returns in Hresult. injection Hresult as <-.
    split; [exact Hreports|].
    apply eq_None_not_Some. intros [spec (_ & _ & _ & Hproto)%Hdev].
    simpl in Hproto.
    assert ("toString" ∈ ["foo"]) as [=]%list_elem_of_singleton.
    apply Hproto. apply (bool_decide_eq_true_1 _). vm_compute. reflexivity.
Defined.

(** ** Merge statistics *)

Lemma foldl_sum {A} (f : A → nat) (l : list A) (n : nat) :
  foldl (λ sum x, sum + f x) n l = n + sum_list_with f l.
Proof.
  revert n. induction l as [|x l IH]; intros n; simpl; [lia|].
  rewrite IH. lia.
Qed.

Lemma length_omap_le {A B} (f : A → option B) (l : list A) :
  (length (omap f l) ≤ length l)%nat.
Proof.
  induction l as [|x l IH]; [done|].
  cbn [omap list_omap]. destruct (f x); cbn [length]; lia.
Qed.

Section Stats.

Variable coerce : string → option Semver.SemVer.

Lemma reportOf_length depVersions devDepVersions r report :
  reportOf coerce depVersions devDepVersions r = Some report →
  (1 ≤ length (outdatedDeps report))%nat
  ∧ (length (outdatedDeps report)
     ≤ length (dependencies r) + length (devDependencies r))%nat.
Proof.
  unfold reportOf.
  assert (length (outdatedOf coerce depVersions devDepVersions r)
          ≤ length (dependencies r) + length (devDependencies r))%nat as Hle.
  { unfold outdatedOf, outdatedNormal, outdatedDev. rewrite length_app.
    pose proof (length_omap_le
      (λ '(pkg, spec), entryOf coerce (Map_get depVersions pkg) pkg spec)
      (dependencies r)).
    pose proof (length_omap_le
      (λ '(pkg, spec),
         entryOf coerce (devSelected depVersions devDepVersions pkg) pkg spec)
      (devDependencies r)).
    lia. }
  destruct (outdatedOf coerce depVersions devDepVersions r) as [|e l]; [done|].
  intros [= <-]. cbn [outdatedDeps length] in *. lia.
Qed.

Lemma reports_total depVersions devDepVersions (repos : list RepoData) :
  let reports := omap (reportOf coerce depVersions devDepVersions) repos in
  (length reports ≤ length repos)%nat
  ∧ (length reports ≤ sum_list_with (λ r, length (outdatedDeps r)) reports)%nat
  ∧ (sum_list_with (λ r, length (outdatedDeps r)) reports
     ≤ declarationCount repos)%nat.
Proof.
  induction repos as [|r repos IH]; [by cbn|].
  cbn zeta in *. destruct IH as (IH1 & IH2 & IH3).
  unfold declarationCount in *. cbn [omap list_omap foldr length].
  destruct (reportOf coerce depVersions devDepVersions r) as [report|] eqn:Hreport.
  - apply reportOf_length in Hreport as [H1 H2].
    cbn [length sum_list_with]. lia.
  - lia.
Qed.

End Stats.

(** X10: The statistics of a merge: the first count is the number of
    different names declared as normal dependencies, [__proto__] not
    counted; the second is at most the number of different names declared
    as development dependencies, [__proto__] not counted; the number of
    repositories with outdated dependencies is at most the number of
    repositories and at most the total of outdated dependencies, which is
    at most the number of declarations. *)
Theorem getMergeStats_counts (coerce : string → option Semver.SemVer) repos :
  ∃ result devDepCount outdatedRepoCount totalOutdated,
    mergeDependencies coerce repos = Returned result
    ∧ getMergeStats result
      = statsText (size (declaredNames normal repos ∖ {["__proto__"]})) devDepCount
          outdatedRepoCount totalOutdated
    ∧ (devDepCount ≤ size (declaredNames development repos ∖ {["__proto__"]}))%nat
    ∧ (outdatedRepoCount ≤ length repos)%nat
    ∧ (outdatedRepoCount ≤ totalOutdated)%nat
    ∧ (totalOutdated ≤ declarationCount repos)%nat.
Proof.
  exists (merge coerce repos), (size (mergedDevDependencies (merge coerce repos))),
    (length (outdatedReports (merge coerce repos))),
    (sum_list_with (λ r, length (outdatedDeps r))
       (outdatedReports (merge coerce repos))).
  split; [apply mergeDependencies_returns|]. split.
  - unfold getMergeStats. by rewrite foldl_sum, <- (merge_dom_normal coerce), size_dom.
  - split; [rewrite <- size_dom; apply subseteq_size, (merge_dom_development coerce)|].
    apply reports_total.
Qed.

(** ** The configuration *)



Lemma loadConfig_reportMode found : is_Some (reportMode (loadConfig found)).
Proof.
  unfold loadConfig. destruct found as [c|]; simpl; [|by eexists].
  destruct (foundReportMode c); by eexists.
Qed.

Lemma loadConfig_saveConfig config :
  is_Some (reportMode config) → loadConfig (saveConfig config) = config.
Proof.
  intros [m Hm]. destruct config as [l o rm]; simpl in *. subst.
  unfold loadConfig; simpl. by destruct o.
Qed.



Section ConfigurationFacts.

Variable existsSync : string → bool.
Variable resolve : string → string.
Variable resolve2 : string → string → string.


(** X12: Running addRepository again for the same path, in a later run of the
    tool, changes nothing: it returns the same configuration and leaves
    the file as the first run left it. *)
Theorem addRepository_idempotent repoPath found config found' :
  addRepository existsSync resolve resolve2 repoPath found = (Returned config, found') →
  addRepository existsSync resolve resolve2 repoPath found' = (Returned config, found').
Proof.
  unfold addRepository.
  destruct (existsSync (resolve repoPath)); simpl; [|done].
  destruct (existsSync (resolve2 (resolve repoPath) "package.json")); simpl; [|done].
  destruct (bool_decide (resolve repoPath ∈ repositories (loadConfig found)))
    eqn:Hin; simpl.
  - intros [= <- <-]. by rewrite Hin.
  - intros [= <- <-].
    rewrite loadConfig_saveConfig by apply loadConfig_reportMode. simpl.
    rewrite bool_decide_eq_true_2; [done|].
    apply elem_of_app. right. apply list_elem_of_here.
Qed.



End ConfigurationFacts.


Lemma addRepository_idempotent_witness :
  addRepository (λ _, true) (λ p, "/work/" +:+ p) (λ a b, a +:+ "/" +:+ b)
    "project-a" (saveConfig {| repositories := ["/work/project-a"];
                              defaultOutput := None;
                              reportMode := Some console |})
  = (Returned {| repositories := ["/work/project-a"];
                 defaultOutput := None;
                 reportMode := Some console |},
     saveConfig {| repositories := ["/work/project-a"];
                   defaultOutput := None;
                   reportMode := Some console |}).
Proof.
  apply (addRepository_idempotent (λ _, true) (λ p, "/work/" +:+ p)
           (λ a b, a +:+ "/" +:+ b) "project-a" None).
  vm_compute. reflexivity.
Defined.



(** ** The scanner *)

Section ScannerFacts.

Variable existsSync : string → bool.
Variable resolve : string → string.
Variable resolve2 : string → string → string.
Variable readPackageJson : string → outcome Package.PackageJson.

Lemma missingPaths_lines repoPaths missing :
  foldl (missingStep existsSync resolve resolve2) missing repoPaths
  = missing ++ omap (invalidLine existsSync resolve resolve2) repoPaths.
Proof.
  revert missing.
  induction repoPaths as [|p repoPaths IH]; intros missing;
    [by rewrite app_nil_r|].
  cbn [foldl omap list_omap]. rewrite IH. unfold missingStep, invalidLine.
  destruct (negb (existsSync (resolve p))); [by rewrite <- app_assoc|].
  destruct (negb (existsSync (resolve2 (resolve p) "package.json")));
    by rewrite <- ?app_assoc.
Qed.

(** X16: When at least one path is invalid, the scan throws one error that
    lists every invalid path, in input order and with the mark of a
    missing package.json, and nothing but those; no manifest decides the
    outcome. *)
Theorem scanRepositories_invalid repoPaths p :
  p ∈ repoPaths →
  existsSync (resolve p) = false
  ∨ existsSync (resolve2 (resolve p) "package.json") = false →
  ∃ line,
    invalidLine existsSync resolve resolve2 p = Some line
    ∧ line ∈ omap (invalidLine existsSync resolve resolve2) repoPaths
    ∧ scanRepositories existsSync resolve resolve2 readPackageJson repoPaths
      = Thrown (configurationError
                  (omap (invalidLine existsSync resolve resolve2) repoPaths)).
Proof.
  intros Hp Hinvalid.
  assert (∃ line, invalidLine existsSync resolve resolve2 p = Some line) as [line Hline].
  { unfold invalidLine. destruct Hinvalid as [-> | H]; simpl; [by eexists|].
    destruct (existsSync (resolve p)); simpl; [|by eexists]. rewrite H. by eexists. }
  assert (line ∈ omap (invalidLine existsSync resolve resolve2) repoPaths) as Hin
    by (apply list_elem_of_omap; eauto).
  exists line. split; [done|]. split; [done|].
  unfold scanRepositories. rewrite missingPaths_lines. simpl.
  destruct (omap (invalidLine existsSync resolve resolve2) repoPaths) as [|l ls];
    [by apply elem_of_nil in Hin|].
  by rewrite decide_True by (simpl; lia).
Qed.

Lemma scan_loop repoPaths scanned :
  (∀ p, p ∈ repoPaths →
        ∃ manifest,
          readPackageJson (resolve2 (resolve p) "package.json") = Returned manifest) →
  ∃ more,
    for_of (scanStep resolve resolve2 readPackageJson) repoPaths scanned
    = Returned (scanned ++ more)
    ∧ Forall2 (λ p s,
                 readPackageJson (resolve2 (resolve p) "package.json")
                 = Returned (packageJson s)
                 ∧ path (repoData s) = resolve p
                 ∧ dependencies (repoData s)
                   = default [] (Package.dependencies (packageJson s))
                 ∧ devDependencies (repoData s)
                   = default [] (Package.devDependencies (packageJson s)))
              repoPaths more.
Proof.
  revert scanned.
  induction repoPaths as [|p repoPaths IH]; intros scanned Hread.
  - exists []. split; [by rewrite app_nil_r|constructor].
  - destruct (Hread p) as [manifest Hmanifest]; [apply list_elem_of_here|].
    cbn [for_of]. unfold scanStep at 1. rewrite Hmanifest. cbn [obind].
    destruct (IH (scanned ++
      [{| packageJson := manifest;
          repoData := {| path := resolve p;
                         dependencies := orEmpty (Package.dependencies manifest);
                         devDependencies := orEmpty (Package.devDependencies manifest) |} |}]))
      as (more & Hmore & Hall).
    { intros q Hq. apply Hread. by apply list_elem_of_further. }
    eexists (_ :: more). split; [by rewrite Hmore, <- app_assoc|].
    constructor; [|done]. done.
Qed.

(** X17: When every path exists and holds a package.json that can be read,
    the scan returns one record per path, in input order: the manifest
    read from the path's package.json, the resolved path, and the two
    dependency objects of the manifest, a missing one being read as
    empty. *)
Theorem scanRepositories_valid repoPaths :
  (∀ p, p ∈ repoPaths →
        existsSync (resolve p) = true
        ∧ existsSync (resolve2 (resolve p) "package.json") = true
        ∧ ∃ manifest,
            readPackageJson (resolve2 (resolve p) "package.json") = Returned manifest) →
  ∃ scanned,
    scanRepositories existsSync resolve resolve2 readPackageJson repoPaths
    = Returned scanned
    ∧ Forall2 (λ p s,
                 readPackageJson (resolve2 (resolve p) "package.json")
                 = Returned (packageJson s)
                 ∧ path (repoData s) = resolve p
                 ∧ dependencies (repoData s)
                   = default [] (Package.dependencies (packageJson s))
                 ∧ devDependencies (repoData s)
                   = default [] (Package.devDependencies (packageJson s)))
              repoPaths scanned.
Proof.
  intros Hvalid. unfold scanRepositories. rewrite missingPaths_lines. simpl.
  assert (omap (invalidLine existsSync resolve resolve2) repoPaths = []) as ->.
  { destruct (omap _ repoPaths) as [|line ls] eqn:Hlines; [done|].
    assert (line ∈ omap (invalidLine existsSync resolve resolve2) repoPaths) as Hin
      by (rewrite Hlines; apply list_elem_of_here).
    apply list_elem_of_omap in Hin as (p & Hp & Hline).
    destruct (Hvalid p Hp) as (H1 & H2 & _).
    unfold invalidLine in Hline. by rewrite H1, H2 in Hline. }
  rewrite decide_False by (simpl; lia).
  destruct (scan_loop repoPaths []) as (more & Hmore & Hall).
  { intros p Hp. by destruct (Hvalid p Hp) as (_ & _ & ?). }
  exists more. by split.
Qed.

End ScannerFacts.

Lemma scanRepositories_invalid_witness :
  scanRepositories (λ p, bool_decide (p = "/work/a")) (λ p, "/work/" +:+ p)
    (λ a b, a +:+ "/" +:+ b) (λ _, Thrown "unreadable") ["a"; "b"]
  = Thrown (configurationError ["/work/a (missing package.json)"; "/work/b"]).
Proof.
  destruct (scanRepositories_invalid (λ p, bool_decide (p = "/work/a"))
              (λ p, "/work/" +:+ p) (λ a b, a +:+ "/" +:+ b)
              (λ _, Thrown "unreadable") ["a"; "b"] "b")
    as (line & _ & _ & H).
  - apply list_elem_of_further, list_elem_of_here.
  - left. vm_compute. reflexivity.
  - exact H.
Defined.

Lemma scanRepositories_valid_witness :
  ∃ scanned,
    scanRepositories (λ _, true) (λ p, "/work/" +:+ p) (λ a b, a +:+ "/" +:+ b)
      (λ _, Returned {| Package.name := Some "a"; Package.version := None;
                        Package.dependencies := Some [("lodash", "^4.17.0")];
                        Package.devDependencies := None |})
      ["a"] = Returned scanned
    ∧ repoData <$> scanned = [repo "/work/a" [("lodash", "^4.17.0")] []].
Proof.
  destruct (scanRepositories_valid (λ _, true) (λ p, "/work/" +:+ p)
              (λ a b, a +:+ "/" +:+ b)
              (λ _, Returned {| Package.name := Some "a"; Package.version := None;
                                Package.dependencies := Some [("lodash", "^4.17.0")];
                                Package.devDependencies := None |})
              ["a"])
    as (scanned & Hscan & Hall).
  { intros p _. split; [done|]. split; [done|]. by eexists. }
  exists scanned. split; [exact Hscan|].
  apply Forall2_cons_inv_l in Hall as (s & rest & (Hread & Hpath & Hdeps & Hdev) & Hrest & ->).
  apply Forall2_nil_inv_l in Hrest as ->.
  injection Hread as Hread. destruct s as [manifest [p deps dev]]; simpl in *.
  by subst.
Defined.

Lemma for_of_app {S A} (body : S → A → outcome S) (l1 l2 : list A) (s : S) :
  for_of body (l1 ++ l2) s = obind (for_of body l1 s) (for_of body l2).
Proof.
  revert s. induction l1 as [|x l1 IH]; intros s; simpl; [done|].
  destruct (body s x); simpl; [apply IH|done].
Qed.

Section ScannerErrors.

Variable existsSync : string → bool.
Variable resolve : string → string.
Variable resolve2 : string → string → string.
Variable readPackageJson : string → outcome Package.PackageJson.

(** X18: The errors of reading a manifest are not collected: when every path
    is valid, the scan throws the error of the first package.json that
    cannot be read or parsed, and the records built before it are lost. *)
Theorem scanRepositories_unreadable before p after msg :
  (∀ q, q ∈ before ++ p :: after →
        existsSync (resolve q) = true
        ∧ existsSync (resolve2 (resolve q) "package.json") = true) →
  (∀ q, q ∈ before →
        ∃ manifest,
          readPackageJson (resolve2 (resolve q) "package.json") = Returned manifest) →
  readPackageJson (resolve2 (resolve p) "package.json") = Thrown msg →
  scanRepositories existsSync resolve resolve2 readPackageJson (before ++ p :: after)
  = Thrown msg.
Proof.
  intros Hvalid Hbefore Hp. unfold scanRepositories.
  rewrite missingPaths_lines. simpl.
  assert (omap (invalidLine existsSync resolve resolve2) (before ++ p :: after) = [])
    as ->.
  { destruct (omap _ (before ++ p :: after)) as [|line ls] eqn:Hlines; [done|].
    assert (line ∈ omap (invalidLine existsSync resolve resolve2) (before ++ p :: after))
      as Hin by (rewrite Hlines; apply list_elem_of_here).
    apply list_elem_of_omap in Hin as (q & Hq & Hline).
    destruct (Hvalid q Hq) as (H1 & H2).
    unfold invalidLine in Hline. by rewrite H1, H2 in Hline. }
  rewrite decide_False by (simpl; lia).
  rewrite for_of_app.
  destruct (scan_loop resolve resolve2 readPackageJson before [] Hbefore)
    as (more & -> & _).
  simpl. unfold scanStep at 1. by rewrite Hp.
Qed.

End ScannerErrors.

Lemma scanRepositories_unreadable_witness :
  scanRepositories (λ _, true) (λ p, "/work/" +:+ p) (λ a b, a +:+ "/" +:+ b)
    (λ manifest,
       if decide (manifest = "/work/a/package.json")
       then Returned {| Package.name := Some "a"; Package.version := None;
                        Package.dependencies := Some [("lodash", "^4.17.0")];
                        Package.devDependencies := None |}
       else Thrown "SyntaxError: Unexpected end of JSON input")
    ["a"; "b"; "c"]
  = Thrown "SyntaxError: Unexpected end of JSON input".
Proof.
  apply (scanRepositories_unreadable (λ _, true) (λ p, "/work/" +:+ p)
           (λ a b, a +:+ "/" +:+ b)
           (λ manifest,
              if decide (manifest = "/work/a/package.json")
              then Returned {| Package.name := Some "a"; Package.version := None;
                               Package.dependencies := Some [("lodash", "^4.17.0")];
                               Package.devDependencies := None |}
              else Thrown "SyntaxError: Unexpected end of JSON input")
           ["a"] "b" ["c"]).
  - by intros q _.
  - intros q ->%list_elem_of_singleton. by eexists.
  - reflexivity.
Defined.
